(** * useful.py: a shallow embedding and its specification

    The Python 2 module [useful.py] is a flat collection of helpers.  This
    development embeds the functions [union_with], [maybe], [maybe_get],
    [zipWith], [replicate], [all_same], [transpose] and [update_list] and
    proves what they compute.

    Conventions of the embedding:
    - a Python computation that may raise and may have side effects is a
      function [S -> outcome A * S] over the state [S] it acts on;
    - exception classes come with Python's [issubclass] relation; the
      functions are written against an arbitrary class hierarchy that
      contains the classes the source names, and the built-in hierarchy of
      Python 2.7 is given as an instance;
    - mutable containers (lists, dictionaries) live in a store and are
      passed by reference, as Python passes them. *)

From Stdlib Require Import ZArith Lia.
From stdpp Require Import gmap strings list fin_maps.

Local Open Scope Z_scope.

(** ** Exception classes *)

(** The classes the source mentions by name, inside some hierarchy ordered
    by [issubclass].  [issubclass c e] is Python's [issubclass(c, e)]. *)
Class ExnHierarchy (cls : Type) := {
  issubclass : cls -> cls -> bool;
  SystemExit : cls;
  Exception : cls;
  LookupError : cls;
  IndexError : cls;
  StopIteration : cls;
  SystemError : cls;
  issubclass_refl : forall c, issubclass c c = true;
  issubclass_trans : forall c d e,
    issubclass c d = true -> issubclass d e = true -> issubclass c e = true;
  LookupError_is_Exception : issubclass LookupError Exception = true;
  IndexError_is_LookupError : issubclass IndexError LookupError = true;
  StopIteration_is_Exception : issubclass StopIteration Exception = true;
  StopIteration_not_SystemExit : issubclass StopIteration SystemExit = false
}.

(** An exception object: its class and its argument. *)
Record pyexn (cls : Type) := mk_exn { exn_class : cls; exn_args : string }.
Arguments mk_exn {cls} _ _.
Arguments exn_class {cls} _.
Arguments exn_args {cls} _.

(** [isinstance(exn, e)] *)
Definition isinstance `{ExnHierarchy cls} (exn : pyexn cls) (e : cls) : bool :=
  issubclass (exn_class exn) e.

(** ** Computations: state and exceptions *)

Inductive outcome (cls A : Type) : Type :=
| Ret (a : A)
| Raise (exn : pyexn cls).
Arguments Ret {cls A} a.
Arguments Raise {cls A} exn.

Definition M (cls S A : Type) : Type := S -> outcome cls A * S.

Definition ret {cls S A} (a : A) : M cls S A := fun s => (Ret a, s).

Definition raise {cls S A} (exn : pyexn cls) : M cls S A := fun s => (Raise exn, s).

Definition bind {cls S A B} (m : M cls S A) (k : A -> M cls S B) : M cls S B :=
  fun s =>
    match m s with
    | (Ret a, s') => k a s'
    | (Raise exn, s') => (Raise exn, s')
    end.

Notation "x <- m ;; k" := (bind m (fun x => k))
  (at level 100, m at next level, right associativity).
Notation "m ;;; k" := (bind m (fun _ => k))
  (at level 100, right associativity).

(** [try: body except c1 as exn: h1 except c2 as exn: h2 ...]: the first
    clause whose class the raised exception is an instance of handles it; an
    exception no clause matches goes on to the caller. *)
Fixpoint handle `{ExnHierarchy cls} {S A}
    (clauses : list (cls * (pyexn cls -> M cls S A))) (exn : pyexn cls) : M cls S A :=
  match clauses with
  | [] => raise exn
  | (c, h) :: rest => if isinstance exn c then h exn else handle rest exn
  end.

Definition try_except `{ExnHierarchy cls} {S A}
    (body : M cls S A) (clauses : list (cls * (pyexn cls -> M cls S A))) : M cls S A :=
  fun s =>
    match body s with
    | (Ret a, s') => (Ret a, s')
    | (Raise exn, s') => handle clauses exn s'
    end.

(** Python's [any] over a list of truth values. *)
Definition any (bs : list bool) : bool := existsb (fun b => b) bs.

(** Python's [all] over the items an iterator still has to give: it stops at
    the first item that is not true and leaves the rest in the iterator. *)
Fixpoint all_of {cls V} (p : V -> bool) (it : list V) : outcome cls bool * list V :=
  match it with
  | [] => (Ret true, [])
  | x :: it' => if p x then all_of p it' else (Ret false, it')
  end.

(** ** Sequences as values *)

(** [iter(items)] on a list: the state of the iterator is what it has not
    given yet. *)
Definition iter {V} (items : list V) : list V := items.

(** [it.next()] *)
Definition next `{ExnHierarchy cls} {V} : M cls (list V) V :=
  fun it =>
    match it with
    | [] => (Raise (mk_exn StopIteration EmptyString), [])
    | x :: it' => (Ret x, it')
    end.

(** [l * n] on lists: [n] copies of [l] one after the other, none when
    [n] is not positive. *)
Fixpoint copies {V} (k : nat) (l : list V) : list V :=
  match k with
  | O => []
  | Datatypes.S k' => l ++ copies k' l
  end.

Definition list_mul {V} (l : list V) (n : Z) : list V :=
  if n <? 0 then [] else copies (Z.to_nat n) l.

(** One round of [zip]: the next item of every iterator, in order, or
    nothing as soon as one of them is exhausted. *)
Fixpoint next_all {V} (its : list (list V)) : option (list V * list (list V)) :=
  match its with
  | [] => Some ([], [])
  | [] :: _ => None
  | (x :: it') :: rest =>
      match next_all rest with
      | Some (t, rest') => Some (x :: t, it' :: rest')
      | None => None
      end
  end.

(** The loop of [zip]: a tuple per round until an iterator is exhausted.
    [fuel] bounds the number of rounds. *)
Fixpoint zip_loop {V} (fuel : nat) (its : list (list V)) : list (list V) :=
  match fuel with
  | O => []
  | Datatypes.S k =>
      match next_all its with
      | Some (t, its') => t :: zip_loop k its'
      | None => []
      end
  end.

(** [zip] of Python 2 applied to the sequences [seqs] as its arguments: a
    list of tuples, and the empty list when there is no argument.  The loop
    has no more rounds than the first sequence has items. *)
Definition zip {V} (seqs : list (list V)) : list (list V) :=
  match seqs with
  | [] => []
  | s :: _ => zip_loop (length s) (map iter seqs)
  end.

(** The argument pairs of Python 2's [map(f, xs, ys)]: the shorter sequence
    is continued with [None]. *)
Fixpoint pad_pairs {V} (none : V) (xs ys : list V) : list (V * V) :=
  match xs with
  | [] => map (fun y => (none, y)) ys
  | x :: xs' =>
      match ys with
      | [] => (x, none) :: pad_pairs none xs' []
      | y :: ys' => (x, y) :: pad_pairs none xs' ys'
      end
  end.

(** Calls of [f] on the items of a list, from left to right. *)
Fixpoint for_each {cls S A B} (f : A -> M cls S B) (l : list A) : M cls S (list B) :=
  match l with
  | [] => ret []
  | a :: l' => b <- f a ;; bs <- for_each f l' ;; ret (b :: bs)
  end.

(** [map(f, xs, ys)] of Python 2 *)
Definition map2 {cls S V} (none : V) (f : V -> V -> M cls S V) (xs ys : list V)
    : M cls S (list V) :=
  for_each (fun p => f (fst p) (snd p)) (pad_pairs none xs ys).

(** ** The store: containers passed by reference *)

Definition loc := positive.

(** A new object at a location the store does not use yet. *)
Definition alloc {cls O} (o : O) : M cls (gmap loc O) loc :=
  fun h => let l := fresh (dom h) in (Ret l, <[l := o]> h).

(** Every reference of a Python program denotes an object; the embedding
    answers a location outside the store with [SystemError]. *)
Definition load `{ExnHierarchy cls} {O} (l : loc) : M cls (gmap loc O) O :=
  fun h =>
    match h !! l with
    | Some o => (Ret o, h)
    | None => (Raise (mk_exn SystemError "no object"), h)
    end.

Definition save `{ExnHierarchy cls} {O} (l : loc) (o : O) : M cls (gmap loc O) unit :=
  _ <- load l ;; (fun h => (Ret tt, <[l := o]> h)).

Section Lists.
Context `{ExnHierarchy cls} {V : Type}.

(** [list(xs)]: a new list with the items of [xs]. *)
Definition list_ (xs : loc) : M cls (gmap loc (list V)) loc :=
  items <- load xs ;; alloc items.

(** [xs[index] = x]: a negative index counts from the end; an index that
    is still negative, or not below the length, is out of range. *)
Definition list_setitem (xs : loc) (index : Z) (x : V) : M cls (gmap loc (list V)) unit :=
  items <- load xs ;;
  let n := Z.of_nat (length items) in
  let i := if index <? 0 then index + n else index in
  if (i <? 0) || (n <=? i)
  then raise (mk_exn IndexError "list assignment index out of range")
  else save xs (<[Z.to_nat i := x]> items).

(** [xs.reverse()]: the items of [xs] in the opposite order, in place. *)
Definition list_reverse (xs : loc) : M cls (gmap loc (list V)) unit :=
  items <- load xs ;; save xs (rev items).
End Lists.

(** [reduce(function, iterable, initializer)]: the items are taken from the
    left, the value so far is the first argument of [function]. *)
Definition reduce {A B} (function : A -> B -> A) (iterable : list B) (initializer : A) : A :=
  fold_left function iterable initializer.

(** The frame of a generator: not started yet, stopped at a [yield], or
    done. *)
Inductive gen_frame : Set := Created | Suspended | Finished.

(** [k] calls of [it.next()], the items in the order of the calls. *)
Fixpoint next_n {cls S V} (step : M cls S V) (k : nat) : M cls S (list V) :=
  match k with
  | O => ret []
  | Datatypes.S k' => x <- step ;; xs <- next_n step k' ;; ret (x :: xs)
  end.

(** A computation on the store, in a state that has a random source [R]
    beside the store. *)
Definition with_store {cls H R A} (m : M cls H A) : M cls (H * R) A :=
  fun hr => let (o, h') := m (fst hr) in (o, (h', snd hr)).

(** [random.shuffle(x)] of the standard library reorders the list [x] in
    place and draws from the random source.  What it makes of the items is
    [shuffle_items]. *)
Definition random_shuffle `{ExnHierarchy cls} {V R}
    (shuffle_items : list V -> R -> list V * R) (x : loc)
    : M cls (gmap loc (list V) * R) unit :=
  items <- with_store (load x) ;;
  (fun hr => let (items', r') := shuffle_items items (snd hr) in
             (Ret tt, (<[x := items']> (fst hr), r'))).

Section Dicts.
Context `{ExnHierarchy cls} `{Countable K} {V : Type}.

(** [d.keys()] of Python 2: the list of the keys. *)
Definition dict_keys (d : loc) : M cls (gmap loc (gmap K V)) (list K) :=
  m <- load d ;; ret (map fst (map_to_list m)).

(** [d.get(key, default)] *)
Definition dict_get (d : loc) (key : K) (default : V) : M cls (gmap loc (gmap K V)) V :=
  m <- load d ;; ret (match m !! key with Some v => v | None => default end).

(** [d[key] = v] *)
Definition dict_setitem (d : loc) (key : K) (v : V) : M cls (gmap loc (gmap K V)) unit :=
  m <- load d ;; save d (<[key := v]> m).

(** [set(keys)] and the order in which a loop goes through it. *)
Definition set_ (keys : list K) : gset K := list_to_set keys.

(** [{key : value(key) for key in keys}]: a new dictionary, filled key
    by key. *)
Definition dict_comprehension (value : K -> M cls (gmap loc (gmap K V)) V) (keys : gset K)
    : M cls (gmap loc (gmap K V)) loc :=
  d <- alloc ∅ ;;
  _ <- for_each (fun key => v <- value key ;; dict_setitem d key v) (elements keys) ;;
  ret d.
End Dicts.

Module Useful.

Section Maybe.
Context `{ExnHierarchy cls} {S A : Type}.

(** [maybe(f, default, exceptions)] *)
Definition maybe (f : M cls S A) (default : A) (exceptions : list cls) : M cls S A :=
  try_except f
    [ (SystemExit, fun exn => raise exn);
      (Exception, fun exn =>
         if any (map (fun e => isinstance exn e) exceptions)
         then ret default
         else raise exn) ].

(** [maybe_get(f_dict, default)] *)
Definition maybe_get (f_dict : M cls S A) (default : A) : M cls S A :=
  maybe f_dict default [LookupError].
End Maybe.

(** [union_with(mempty, mappend, d1, d2)] *)
Definition union_with `{ExnHierarchy cls} `{Countable K} {V : Type}
    (mempty : V) (mappend : V -> V -> V) (d1 d2 : loc) : M cls (gmap loc (gmap K V)) loc :=
  keys1 <- dict_keys d1 ;;
  keys2 <- dict_keys d2 ;;
  dict_comprehension
    (fun key =>
       v1 <- dict_get d1 key mempty ;;
       v2 <- dict_get d2 key mempty ;;
       ret (mappend v1 v2))
    (set_ (keys1 ++ keys2)).

(** [zipWith(f, xs, ys)]: the value of [map] is dropped and the function
    ends without a [return], which gives [None]. *)
Definition zipWith {cls S V} (none : V) (f : V -> V -> M cls S V) (xs ys : list V)
    : M cls S V :=
  _ <- map2 none f xs ys ;; ret none.

(** [replicate(n, x)] *)
Definition replicate {V} (n : Z) (x : V) : list V := list_mul [x] n.

(** [all_same(items)]; [eq] is Python's [==] on the items. *)
Definition all_same `{ExnHierarchy cls} {V} (none : V) (eq : V -> V -> bool)
    (items : list V) : outcome cls bool :=
  let itemsIter := iter items in
  fst ((i0 <- maybe next none [StopIteration] ;;
        all_of (fun x => eq x i0)) itemsIter).

(** [transpose(m)] *)
Definition transpose {V} (m : list (list V)) : list (list V) := zip m.

(** [update_list(xs, index, new_x)] *)
Definition update_list `{ExnHierarchy cls} {V}
    (xs : loc) (index : Z) (new_x : V) : M cls (gmap loc (list V)) loc :=
  new_xs <- list_ xs ;;
  _ <- list_setitem new_xs index new_x ;;
  ret new_xs.

(** [safe_shuffle(xs)] *)
Definition safe_shuffle `{ExnHierarchy cls} {V R}
    (shuffle_items : list V -> R -> list V * R) (xs : loc)
    : M cls (gmap loc (list V) * R) loc :=
  new_xs <- with_store (list_ xs) ;;
  _ <- random_shuffle shuffle_items new_xs ;;
  ret new_xs.

(** [safe_reverse(xs)] *)
Definition safe_reverse `{ExnHierarchy cls} {V}
    (xs : loc) : M cls (gmap loc (list V)) loc :=
  new_xs <- list_ xs ;;
  _ <- list_reverse new_xs ;;
  ret new_xs.

(** [repeat(n)]: the frame of the new generator and its [next].  The body
    is [while True: yield n]: started or resumed, it goes to the [yield];
    it has no way out of the loop. *)
Definition repeat `{ExnHierarchy cls} {V} (n : V) : gen_frame * M cls gen_frame V :=
  (Created,
   fun frame =>
     match frame with
     | Created | Suspended => (Ret n, Suspended)
     | Finished => (Raise (mk_exn StopIteration EmptyString), Finished)
     end).

(** [all_nones(xs)]; [eq] is Python's [==] on the items. *)
Definition all_nones {cls V} (none : V) (eq : V -> V -> bool)
    (xs : list V) : outcome cls bool :=
  fst (all_of (fun x => eq x none) (iter xs)).

(** [concat(xss)] *)
Definition concat {V} (xss : list (list V)) : list V :=
  reduce (fun x1 x2 => x1 ++ x2) xss [].

End Useful.

(** The length of the shortest row; 0 when there is no row. *)
Fixpoint shortest {V} (rows : list (list V)) : nat :=
  match rows with
  | [] => O
  | r :: rs =>
      match rs with
      | [] => length r
      | _ :: _ => Nat.min (length r) (shortest rs)
      end
  end.

(** ** Instrumentation: counting the calls of a computation *)

(** [counted f] behaves as [f] and adds one to a counter each time it is
    called. *)
Definition counted {cls S A} (f : M cls S A) : M cls (S * nat) A :=
  fun sn => let (r, s') := f (fst sn) in (r, (s', Datatypes.S (snd sn))).

(** A function that completes on every argument pair, as a computation. *)
Definition total2 {cls S V} (g : V -> V -> S -> V * S) : V -> V -> M cls S V :=
  fun x y s => let (v, s') := g x y s in (Ret v, s').

(** ** The built-in exception classes of Python 2.7 *)

Module Py27.

Inductive builtin : Set :=
| E_BaseException | E_SystemExit | E_KeyboardInterrupt | E_GeneratorExit
| E_Exception | E_StopIteration | E_StandardError | E_BufferError
| E_ArithmeticError | E_FloatingPointError | E_OverflowError
| E_ZeroDivisionError | E_AssertionError | E_AttributeError
| E_EnvironmentError | E_IOError | E_OSError | E_EOFError | E_ImportError
| E_LookupError | E_IndexError | E_KeyError | E_MemoryError | E_NameError
| E_UnboundLocalError | E_ReferenceError | E_RuntimeError
| E_NotImplementedError | E_SyntaxError | E_IndentationError | E_TabError
| E_SystemError | E_TypeError | E_ValueError | E_UnicodeError
| E_UnicodeDecodeError | E_UnicodeEncodeError | E_UnicodeTranslateError
| E_Warning.

(** The class a class is derived from; [BaseException] has none. *)
Definition base (c : builtin) : option builtin :=
  match c with
  | E_BaseException => None
  | E_SystemExit | E_KeyboardInterrupt | E_GeneratorExit | E_Exception =>
      Some E_BaseException
  | E_StopIteration | E_StandardError | E_Warning => Some E_Exception
  | E_BufferError | E_ArithmeticError | E_AssertionError | E_AttributeError
  | E_EnvironmentError | E_EOFError | E_ImportError | E_LookupError
  | E_MemoryError | E_NameError | E_ReferenceError | E_RuntimeError
  | E_SyntaxError | E_SystemError | E_TypeError | E_ValueError =>
      Some E_StandardError
  | E_FloatingPointError | E_OverflowError | E_ZeroDivisionError =>
      Some E_ArithmeticError
  | E_IOError | E_OSError => Some E_EnvironmentError
  | E_IndexError | E_KeyError => Some E_LookupError
  | E_UnboundLocalError => Some E_NameError
  | E_NotImplementedError => Some E_RuntimeError
  | E_IndentationError => Some E_SyntaxError
  | E_TabError => Some E_IndentationError
  | E_UnicodeError => Some E_ValueError
  | E_UnicodeDecodeError | E_UnicodeEncodeError | E_UnicodeTranslateError =>
      Some E_UnicodeError
  end.

Definition all_classes : list builtin :=
  [ E_BaseException; E_SystemExit; E_KeyboardInterrupt; E_GeneratorExit;
    E_Exception; E_StopIteration; E_StandardError; E_BufferError;
    E_ArithmeticError; E_FloatingPointError; E_OverflowError;
    E_ZeroDivisionError; E_AssertionError; E_AttributeError;
    E_EnvironmentError; E_IOError; E_OSError; E_EOFError; E_ImportError;
    E_LookupError; E_IndexError; E_KeyError; E_MemoryError; E_NameError;
    E_UnboundLocalError; E_ReferenceError; E_RuntimeError;
    E_NotImplementedError; E_SyntaxError; E_IndentationError; E_TabError;
    E_SystemError; E_TypeError; E_ValueError; E_UnicodeError;
    E_UnicodeDecodeError; E_UnicodeEncodeError; E_UnicodeTranslateError;
    E_Warning ].

#[global] Instance builtin_eq_dec : EqDecision builtin.
Proof. solve_decision. Defined.

(** [c] and the classes above it, [fuel] levels up. *)
Fixpoint ancestors (fuel : nat) (c : builtin) : list builtin :=
  c :: match fuel with
       | O => []
       | Datatypes.S k =>
           match base c with
           | Some b => ancestors k b
           | None => []
           end
       end.

(** The hierarchy is six levels deep. *)
Definition mro (c : builtin) : list builtin := ancestors 6 c.

(** [issubclass(c, e)]: [e] is [c] or a class above it. *)
Definition py_issubclass (c e : builtin) : bool :=
  existsb (fun d => bool_decide (d = e)) (mro c).

End Py27.

(** The built-in classes with [py_issubclass] are a hierarchy. *)
#[global] Instance py27_hierarchy : ExnHierarchy Py27.builtin.
Proof.
  refine {| issubclass := Py27.py_issubclass;
            SystemExit := Py27.E_SystemExit;
            Exception := Py27.E_Exception;
            LookupError := Py27.E_LookupError;
            IndexError := Py27.E_IndexError;
            StopIteration := Py27.E_StopIteration;
            SystemError := Py27.E_SystemError |}; try reflexivity.
  - intros c. destruct c; reflexivity.
  - assert (Hall : forallb (fun c => forallb (fun d => forallb (fun e =>
              implb (Py27.py_issubclass c d && Py27.py_issubclass d e)
                    (Py27.py_issubclass c e))
              Py27.all_classes) Py27.all_classes) Py27.all_classes = true)
      by (vm_compute; reflexivity).
    assert (Hin : forall c, In c Py27.all_classes)
      by (intros c; destruct c; simpl; tauto).
    intros c d e Hcd Hde.
    rewrite forallb_forall in Hall. specialize (Hall c (Hin c)).
    rewrite forallb_forall in Hall. specialize (Hall d (Hin d)).
    rewrite forallb_forall in Hall. specialize (Hall e (Hin e)).
    rewrite Hcd, Hde in Hall. exact Hall.
Defined.

(** ** Values for the examples of the docstrings *)

Module Doctest.

Inductive pyval : Type :=
| VNone
| VBool (b : bool)
| VInt (n : Z)
| VStr (s : string).

(** Python's [==] on these values: [None] equals itself only, truth values
    are the integers 0 and 1, strings equal strings. *)
Definition py_eq (x y : pyval) : bool :=
  match x, y with
  | VNone, VNone => true
  | VBool a, VBool b => Bool.eqb a b
  | VBool a, VInt n => (if a then 1 else 0) =? n
  | VInt n, VBool b => n =? (if b then 1 else 0)
  | VInt n, VInt k => n =? k
  | VStr s, VStr t => String.eqb s t
  | _, _ => false
  end.

(** [a / b] on integers: the floor of the quotient, [ZeroDivisionError] when
    [b] is 0. *)
Definition int_div {S} (a b : Z) : M Py27.builtin S pyval :=
  if b =? 0
  then raise (mk_exn Py27.E_ZeroDivisionError "integer division or modulo by zero")
  else ret (VInt (a / b)).

(** [d[key]] on a dictionary with string keys: [KeyError] when [key] is
    missing. *)
Definition dict_getitem {S} (d : gmap string pyval) (key : string) : M Py27.builtin S pyval :=
  match d !! key with
  | Some v => ret v
  | None => raise (mk_exn Py27.E_KeyError key)
  end.

(** [range(a, b)[i]] for [0 <= i]: [IndexError] when [i] is not below the
    length. *)
Definition range_getitem {S} (a b i : Z) : M Py27.builtin S pyval :=
  if (0 <=? i) && (i <? b - a)
  then ret (VInt (a + i))
  else raise (mk_exn Py27.E_IndexError "list index out of range").

(** [x + y] on integers; [TypeError] for anything else, [None] included. *)
Definition int_add {S} (x y : pyval) : M Py27.builtin S pyval :=
  match x, y with
  | VInt a, VInt b => ret (VInt (a + b))
  | _, _ => raise (mk_exn Py27.E_TypeError "unsupported operand type(s) for +")
  end.

(** What [update_list] gives for a list with the items [items], alone in
    the store: the items of the list it returns, or the class of the
    exception; and the items [xs] has afterwards. *)
Definition run_update_list (items : list Z) (index new_x : Z)
    : (list Z + Py27.builtin) * option (list Z) :=
  let xs : loc := 1%positive in
  let h : gmap loc (list Z) := {[ xs := items ]} in
  match Useful.update_list xs index new_x h with
  | (Ret new_xs, h') => (inl (default [] (h' !! new_xs)), h' !! xs)
  | (Raise exn, h') => (inr (exn_class exn), h' !! xs)
  end.

(** What [union_with] gives for two dictionaries with the entries [m1] and
    [m2], alone in the store: the entries of the dictionary it returns, and
    the entries the two have afterwards. *)
Definition run_union_with {V} (mempty : V) (mappend : V -> V -> V)
    (m1 m2 : gmap string V)
    : option (gmap string V) * option (gmap string V) * option (gmap string V) :=
  let d1 : loc := 1%positive in
  let d2 : loc := 2%positive in
  let h : gmap loc (gmap string V) := <[d2 := m2]> {[ d1 := m1 ]} in
  match Useful.union_with (cls := Py27.builtin) mempty mappend d1 d2 h with
  | (Ret new, h') => (h' !! new, h' !! d1, h' !! d2)
  | (Raise _, h') => (None, h' !! d1, h' !! d2)
  end.

End Doctest.

(** * Properties *)

(** ** Sequencing *)

Lemma bind_returned {cls S A B} (m : M cls S A) (k : A -> M cls S B) s a s' :
  m s = (Ret a, s') -> bind m k s = k a s'.
Proof. intros Hm. unfold bind. rewrite Hm. reflexivity. Qed.

Lemma bind_raised {cls S A B} (m : M cls S A) (k : A -> M cls S B) s exn s' :
  m s = (Raise exn, s') -> bind m k s = (Raise exn, s').
Proof. intros Hm. unfold bind. rewrite Hm. reflexivity. Qed.

(** ** [maybe] and [maybe_get] *)

Section MaybeFacts.
Context `{ExnHierarchy cls}.
Implicit Types (exceptions : list cls) (exn : pyexn cls).

(** The test of the second [except] clause: some listed class has the
    exception as an instance. *)
Lemma any_isinstance exn exceptions :
  any (map (fun e => isinstance exn e) exceptions) = true <->
  exists e, e ∈ exceptions /\ isinstance exn e = true.
Proof.
  unfold any. induction exceptions as [|c cs IH]; simpl.
  - split; [discriminate | intros (e & He & _); inversion He].
  - rewrite orb_true_iff, IH. split.
    + intros [Hc | (e & He & Hi)].
      * exists c. split; [left | exact Hc].
      * exists e. split; [right; exact He | exact Hi].
    + intros (e & He & Hi). inversion He; subst; [left; exact Hi | right; eauto].
Qed.

Lemma any_isinstance_none exn exceptions :
  any (map (fun e => isinstance exn e) exceptions) = false <->
  forall e, e ∈ exceptions -> isinstance exn e = false.
Proof.
  rewrite <- not_true_iff_false, any_isinstance. split.
  - intros Hno e He. apply not_true_iff_false. intros Hi. apply Hno. eauto.
  - intros Hall (e & He & Hi). rewrite (Hall e He) in Hi. discriminate.
Qed.

(** What [maybe] does, by the way the call of [f] ends. *)
Lemma maybe_returned {S A} (f : M cls S A) default exceptions s v s' :
  f s = (Ret v, s') -> Useful.maybe f default exceptions s = (Ret v, s').
Proof. intros Hf. unfold Useful.maybe, try_except. rewrite Hf. reflexivity. Qed.

Lemma maybe_raised {S A} (f : M cls S A) default exceptions s exn s' :
  f s = (Raise exn, s') ->
  Useful.maybe f default exceptions s =
    if isinstance exn SystemExit then (Raise exn, s')
    else if isinstance exn Exception then
      if any (map (fun e => isinstance exn e) exceptions)
      then (Ret default, s') else (Raise exn, s')
    else (Raise exn, s').
Proof.
  intros Hf. unfold Useful.maybe, try_except. rewrite Hf. simpl.
  destruct (isinstance exn SystemExit); [reflexivity|].
  destruct (isinstance exn Exception); [|reflexivity].
  destruct (any _); reflexivity.
Qed.

(** [maybe] runs [f] once: a counter of the calls of [f] goes up by one. *)
Lemma maybe_calls_once {S A} (f : M cls S A) default exceptions s n :
  snd (snd (Useful.maybe (counted f) default exceptions (s, n))) = Datatypes.S n.
Proof.
  destruct (f s) as [[v | exn] s'] eqn:Hf.
  - assert (Hc : counted f (s, n) = (Ret v, (s', Datatypes.S n)))
      by (unfold counted; simpl; rewrite Hf; reflexivity).
    rewrite (maybe_returned _ default exceptions _ _ _ Hc). reflexivity.
  - assert (Hc : counted f (s, n) = (Raise exn, (s', Datatypes.S n)))
      by (unfold counted; simpl; rewrite Hf; reflexivity).
    rewrite (maybe_raised _ default exceptions _ _ _ Hc).
    repeat case_match; reflexivity.
Qed.

(** C2 (as amended): [maybe] calls [f] once.  A value [f] returns is the
    value of [maybe].  An exception of [f] that is an instance of [Exception]
    and not of [SystemExit], and an instance of a listed class, is replaced
    by [default].  An exception that is an instance of no listed class goes
    on to the caller as it is; with no class listed, every exception does. *)
Theorem maybe_spec {S A} (f : M cls S A) default exceptions s :
  (forall v s', f s = (Ret v, s') ->
     Useful.maybe f default exceptions s = (Ret v, s')) /\
  (forall exn s', f s = (Raise exn, s') ->
     isinstance exn Exception = true -> isinstance exn SystemExit = false ->
     (exists e, e ∈ exceptions /\ isinstance exn e = true) ->
     Useful.maybe f default exceptions s = (Ret default, s')) /\
  (forall exn s', f s = (Raise exn, s') ->
     (forall e, e ∈ exceptions -> isinstance exn e = false) ->
     Useful.maybe f default exceptions s = (Raise exn, s')) /\
  Useful.maybe f default [] s = f s /\
  (forall n,
     snd (snd (Useful.maybe (counted f) default exceptions (s, n))) = Datatypes.S n).
Proof.
  repeat split.
  - intros v s'. apply maybe_returned.
  - intros exn s' Hf Hexc Hexit Hlisted.
    rewrite (maybe_raised _ default exceptions _ _ _ Hf), Hexit, Hexc.
    apply any_isinstance in Hlisted. rewrite Hlisted. reflexivity.
  - intros exn s' Hf Hnone.
    rewrite (maybe_raised _ default exceptions _ _ _ Hf).
    apply any_isinstance_none in Hnone. rewrite Hnone.
    repeat case_match; reflexivity.
  - destruct (f s) as [[v | exn] s'] eqn:Hf.
    + apply maybe_returned, Hf.
    + rewrite (maybe_raised _ default [] _ _ _ Hf). simpl.
      repeat case_match; reflexivity.
  - apply maybe_calls_once.
Qed.

(** C3: an exception of [f] that is an instance of [SystemExit] is raised
    again by [maybe], whatever classes are listed, [SystemExit] included. *)
Theorem maybe_reraises_SystemExit {S A} (f : M cls S A) default exceptions s exn s' :
  f s = (Raise exn, s') ->
  isinstance exn SystemExit = true ->
  Useful.maybe f default exceptions s = (Raise exn, s').
Proof.
  intros Hf Hexit.
  rewrite (maybe_raised _ default exceptions _ _ _ Hf), Hexit. reflexivity.
Qed.

(** C10: an exception of [f] that is not an instance of [Exception] goes on
    to the caller, whatever classes are listed: the test against the listed
    classes is inside the [except Exception] clause. *)
Theorem maybe_propagates_outside_Exception {S A} (f : M cls S A) default exceptions s exn s' :
  f s = (Raise exn, s') ->
  isinstance exn Exception = false ->
  Useful.maybe f default exceptions s = (Raise exn, s').
Proof.
  intros Hf Hexc.
  rewrite (maybe_raised _ default exceptions _ _ _ Hf), Hexc.
  destruct (isinstance exn SystemExit); reflexivity.
Qed.

(** An instance of [LookupError] is an instance of [Exception]. *)
Lemma LookupError_instance_Exception exn :
  isinstance exn LookupError = true -> isinstance exn Exception = true.
Proof.
  unfold isinstance. intros Hl.
  exact (issubclass_trans _ _ _ Hl LookupError_is_Exception).
Qed.

(** C4: [maybe_get f default] is [maybe f default [LookupError]]: the value
    of [f] when it returns one, [default] for a lookup failure, and any
    exception that is not a lookup failure goes on to the caller.  The
    [SystemExit] clause of [maybe] comes first here too. *)
Theorem maybe_get_spec {S A} (f : M cls S A) default s :
  Useful.maybe_get f default s = Useful.maybe f default [LookupError] s /\
  (forall v s', f s = (Ret v, s') ->
     Useful.maybe_get f default s = (Ret v, s')) /\
  (forall exn s', f s = (Raise exn, s') ->
     isinstance exn LookupError = true -> isinstance exn SystemExit = false ->
     Useful.maybe_get f default s = (Ret default, s')) /\
  (forall exn s', f s = (Raise exn, s') ->
     isinstance exn LookupError = false ->
     Useful.maybe_get f default s = (Raise exn, s')).
Proof.
  unfold Useful.maybe_get. repeat split.
  - intros v s'. apply maybe_returned.
  - intros exn s' Hf Hlookup Hexit.
    rewrite (maybe_raised _ default [LookupError] _ _ _ Hf), Hexit.
    rewrite (LookupError_instance_Exception _ Hlookup). simpl.
    rewrite Hlookup. reflexivity.
  - intros exn s' Hf Hlookup.
    rewrite (maybe_raised _ default [LookupError] _ _ _ Hf). simpl.
    rewrite Hlookup. simpl. repeat case_match; reflexivity.
Qed.

End MaybeFacts.

(** *** The docstring examples, on the built-in hierarchy *)

Section MaybeExamples.
Import Py27 Doctest.

(** [maybe(lambda: 200/0, exceptions=[ZeroDivisionError]) == None] and
    [maybe(lambda: 400/2, exceptions=[ZeroDivisionError])] is [200]. *)
Lemma maybe_spec_witness :
  Useful.maybe (int_div 200 0) VNone [E_ZeroDivisionError] tt = (Ret VNone, tt) /\
  Useful.maybe (int_div 400 2) VNone [E_ZeroDivisionError] tt = (Ret (VInt 200), tt).
Proof.
  split.
  - apply (proj1 (proj2 (maybe_spec (int_div 200 0) VNone [E_ZeroDivisionError] tt))
             (mk_exn E_ZeroDivisionError "integer division or modulo by zero") tt).
    + reflexivity.
    + reflexivity.
    + reflexivity.
    + exists E_ZeroDivisionError. split; [left | reflexivity].
  - apply (proj1 (maybe_spec (int_div 400 2) VNone [E_ZeroDivisionError] tt)).
    reflexivity.
Defined.

(** C2 as it is written fails: [SystemExit] is listed and raised, and the
    caller gets the exception, not the default. *)
Lemma maybe_listed_SystemExit_not_default :
  let exn := mk_exn E_SystemExit "0" in
  let f : M builtin unit pyval := raise exn in
  f tt = (Raise exn, tt) /\
  (exists e, e ∈ [E_SystemExit] /\ isinstance exn e = true) /\
  Useful.maybe f VNone [E_SystemExit] tt = (Raise exn, tt) /\
  Useful.maybe f VNone [E_SystemExit] tt <> (Ret VNone, tt).
Proof.
  simpl. split; [reflexivity|]. split.
  - exists E_SystemExit. split; [left | reflexivity].
  - split; [reflexivity | discriminate].
Qed.

(** The same for an exception outside [Exception] that is listed. *)
Example maybe_listed_KeyboardInterrupt_not_default :
  let exn := mk_exn E_KeyboardInterrupt "" in
  Useful.maybe (raise exn) VNone [E_KeyboardInterrupt] tt = (Raise exn, tt).
Proof. reflexivity. Qed.

Lemma maybe_reraises_SystemExit_witness :
  let exn := mk_exn E_SystemExit "0" in
  isinstance exn SystemExit = true /\
  Useful.maybe (raise exn) VNone [E_SystemExit; E_BaseException] tt = (Raise exn, tt).
Proof.
  split; [reflexivity|].
  apply (maybe_reraises_SystemExit
           (raise (mk_exn E_SystemExit "0")) VNone [E_SystemExit; E_BaseException] tt);
    reflexivity.
Defined.

Lemma maybe_propagates_outside_Exception_witness :
  let exn := mk_exn E_KeyboardInterrupt "" in
  isinstance exn Exception = false /\
  Useful.maybe (raise exn) VNone [E_KeyboardInterrupt; E_GeneratorExit] tt = (Raise exn, tt).
Proof.
  split; [reflexivity|].
  apply (maybe_propagates_outside_Exception
           (raise (mk_exn E_KeyboardInterrupt "")) VNone
           [E_KeyboardInterrupt; E_GeneratorExit] tt);
    reflexivity.
Defined.

(** [maybe_get(lambda: {"hello" : 42}["bar"]) == None],
    [maybe_get(lambda: {"hello" : 42}["hello"])] is [42], and an exception
    that is not a lookup failure is not caught. *)
Lemma maybe_get_spec_witness :
  let d : gmap string pyval := {[ "hello"%string := VInt 42 ]} in
  Useful.maybe_get (dict_getitem d "bar") VNone tt = (Ret VNone, tt) /\
  Useful.maybe_get (dict_getitem d "hello") VNone tt = (Ret (VInt 42), tt) /\
  Useful.maybe_get (int_div 200 0) VNone tt =
    (Raise (mk_exn E_ZeroDivisionError "integer division or modulo by zero"), tt).
Proof.
  intros d. split; [|split].
  - apply (proj1 (proj2 (proj2 (maybe_get_spec (dict_getitem d "bar") VNone tt)))
             (mk_exn E_KeyError "bar") tt); reflexivity.
  - apply (proj1 (proj2 (maybe_get_spec (dict_getitem d "hello") VNone tt))).
    reflexivity.
  - apply (proj2 (proj2 (proj2 (maybe_get_spec (int_div 200 0) VNone tt)))
             (mk_exn E_ZeroDivisionError "integer division or modulo by zero") tt);
      reflexivity.
Defined.

(** In the built-in hierarchy no lookup failure is a [SystemExit], so
    [maybe_get] turns every lookup failure into the default. *)
Lemma builtin_lookup_failure_not_SystemExit (exn : pyexn builtin) :
  isinstance exn LookupError = true -> isinstance exn SystemExit = false.
Proof. destruct exn as [c a]. destruct c; simpl; (reflexivity || discriminate). Qed.

Lemma maybe_get_builtin {S A} (f : M builtin S A) default s exn s' :
  f s = (Raise exn, s') ->
  Useful.maybe_get f default s =
    if isinstance exn LookupError then (Ret default, s') else (Raise exn, s').
Proof.
  intros Hf. unfold Useful.maybe_get.
  rewrite (maybe_raised _ default [LookupError] _ _ _ Hf).
  unfold any, map, existsb. rewrite orb_false_r.
  destruct (isinstance exn LookupError) eqn:Hl.
  - rewrite (builtin_lookup_failure_not_SystemExit _ Hl).
    rewrite (LookupError_instance_Exception _ Hl). reflexivity.
  - repeat case_match; reflexivity.
Qed.

(** [maybe_get(lambda: range(0, 100)[100]) == None] and
    [maybe_get(lambda: range(12, 20)[1] + 1)] is [14]. *)
Example maybe_get_range :
  Useful.maybe_get (range_getitem 0 100 100) VNone tt = (Ret VNone, tt) /\
  Useful.maybe_get (v <- range_getitem 12 20 1 ;;
                    match v with VInt n => ret (VInt (n + 1)) | _ => ret v end)
                   VNone tt = (Ret (VInt 14), tt).
Proof. split; reflexivity. Qed.

End MaybeExamples.

(** ** [replicate] *)

Lemma copies_singleton {V} (k : nat) (x : V) : copies k [x] = repeat x k.
Proof. induction k as [|k IH]; simpl; [reflexivity | rewrite IH; reflexivity]. Qed.

Lemma replicate_repeat {V} (n : Z) (x : V) :
  Useful.replicate n x = repeat x (Z.to_nat (Z.max n 0)).
Proof.
  unfold Useful.replicate, list_mul. rewrite copies_singleton.
  destruct (Z.ltb_spec n 0) as [Hneg | Hpos].
  - replace (Z.max n 0) with 0 by lia. reflexivity.
  - replace (Z.max n 0) with n by lia. reflexivity.
Qed.

(** C7: [replicate n x] has [max n 0] items, each of them [x]; it is empty
    exactly when [n] is negative or zero. *)
Theorem replicate_spec {V} (n : Z) (x : V) :
  Z.of_nat (length (Useful.replicate n x)) = Z.max n 0 /\
  Forall (fun y => y = x) (Useful.replicate n x) /\
  (Useful.replicate n x = [] <-> n <= 0).
Proof.
  rewrite replicate_repeat. split; [|split].
  - rewrite repeat_length. lia.
  - apply Forall_forall. intros y Hy. apply list_elem_of_In in Hy.
    exact (repeat_spec _ _ _ Hy).
  - split.
    + intros Hnil. apply (f_equal (@length V)) in Hnil.
      rewrite repeat_length in Hnil. simpl in Hnil. lia.
    + intros Hn. replace (Z.max n 0) with 0 by lia. reflexivity.
Qed.

(** [replicate(-1, 'x')], [replicate(0, 42)], [replicate(1, 'a')] and
    [replicate(5, 1)] of the docstring. *)
Example replicate_doctest :
  Useful.replicate (-1) "x"%string = [] /\
  Useful.replicate 0 42 = [] /\
  Useful.replicate 1 "a"%string = ["a"%string] /\
  Useful.replicate 5 1 = [1; 1; 1; 1; 1].
Proof. repeat split. Qed.

(** ** [all_same] *)

Section AllSame.
Context `{ExnHierarchy cls} {V : Type} (none : V) (eq : V -> V -> bool).

(** The first step of [all_same]: the first item, or [None] when there is
    none, and the iterator past it. *)
Lemma maybe_next_nil :
  Useful.maybe next none [StopIteration] (iter (@nil V)) = (Ret none, []).
Proof.
  rewrite (maybe_raised next none [StopIteration] [] (mk_exn StopIteration EmptyString) [] eq_refl).
  unfold isinstance. simpl.
  rewrite StopIteration_not_SystemExit, StopIteration_is_Exception.
  rewrite issubclass_refl. reflexivity.
Qed.

Lemma maybe_next_cons (x : V) (rest : list V) :
  Useful.maybe next none [StopIteration] (iter (x :: rest)) = (Ret x, rest).
Proof. apply maybe_returned. reflexivity. Qed.

Lemma all_of_forallb (p : V -> bool) (it : list V) :
  fst (@all_of cls V p it) = Ret (forallb p it).
Proof.
  induction it as [|x it IH]; simpl; [reflexivity|].
  destruct (p x); [exact IH | reflexivity].
Qed.

(** [all_same] compares every item after the first with the first. *)
Lemma all_same_cons (x0 : V) (rest : list V) :
  Useful.all_same none eq (x0 :: rest) = Ret (forallb (fun x => eq x x0) rest).
Proof.
  unfold Useful.all_same, bind. rewrite maybe_next_cons. apply all_of_forallb.
Qed.

(** Python's [==] on built-in values relates nothing to a value that is not
    equal to itself. *)
Hypothesis eq_self : forall a b, eq b a = true -> eq a a = true.

(** C9: [all_same] is true on the empty sequence and on a sequence of one
    item; on a longer one it is true exactly when every item is equal, by
    [==], to the first. *)
Theorem all_same_spec :
  Useful.all_same none eq [] = Ret true /\
  (forall v, Useful.all_same none eq [v] = Ret true) /\
  (forall x0 x1 rest, exists b,
     Useful.all_same none eq (x0 :: x1 :: rest) = Ret b /\
     (b = true <-> forall x, x ∈ x0 :: x1 :: rest -> eq x x0 = true)).
Proof.
  split; [|split].
  - unfold Useful.all_same, bind. rewrite maybe_next_nil. reflexivity.
  - intros v. rewrite all_same_cons. reflexivity.
  - intros x0 x1 rest. exists (forallb (fun x => eq x x0) (x1 :: rest)).
    split; [apply all_same_cons|].
    rewrite forallb_forall. split.
    + intros Hrest x Hx. apply elem_of_cons in Hx as [-> | Hx].
      * apply (eq_self x0 x1). apply Hrest. left. reflexivity.
      * apply Hrest. apply list_elem_of_In. exact Hx.
    + intros Hall x Hx. apply Hall. right. apply list_elem_of_In. exact Hx.
Qed.

End AllSame.

Section AllSameExamples.
Import Py27 Doctest.

Lemma py_eq_self (a b : pyval) : py_eq b a = true -> py_eq a a = true.
Proof.
  intros _. destruct a as [|[]|n|s]; simpl; try reflexivity.
  - apply Z.eqb_refl.
  - apply String.eqb_refl.
Qed.

(** The docstring: [all_same([])], [all_same([42])],
    [all_same([True, False, True])], [all_same([True, True, True])],
    [all_same([None, None, None])] and [all_same([None, 42, True])]. *)
Example all_same_doctest :
  Useful.all_same (cls := builtin) VNone py_eq [] = Ret true /\
  Useful.all_same (cls := builtin) VNone py_eq [VInt 42] = Ret true /\
  Useful.all_same (cls := builtin) VNone py_eq [VBool true; VBool false; VBool true] = Ret false /\
  Useful.all_same (cls := builtin) VNone py_eq [VBool true; VBool true; VBool true] = Ret true /\
  Useful.all_same (cls := builtin) VNone py_eq [VNone; VNone; VNone] = Ret true /\
  Useful.all_same (cls := builtin) VNone py_eq [VNone; VInt 42; VBool true] = Ret false.
Proof. repeat split. Qed.

Lemma all_same_spec_witness :
  exists b,
    Useful.all_same (cls := builtin) VNone py_eq [VInt 1; VBool true; VInt 1] = Ret b /\
    (b = true <->
     forall x, x ∈ [VInt 1; VBool true; VInt 1] -> py_eq x (VInt 1) = true).
Proof.
  exact (proj2 (proj2 (all_same_spec (cls := builtin) VNone py_eq py_eq_self))
           (VInt 1) (VBool true) [VInt 1]).
Defined.

End AllSameExamples.

(** ** [zipWith] *)

Section ZipWith.
Context {cls S V : Type} (none : V).

(** Calls that all complete leave the state the calls make of it, one after
    the other. *)
Lemma for_each_total (g : V -> V -> S -> V * S) (l : list (V * V)) (s : S) :
  exists vs,
    for_each (cls := cls) (fun p => total2 g (fst p) (snd p)) l s =
      (Ret vs, fold_left (fun t p => snd (g (fst p) (snd p) t)) l s).
Proof.
  revert s. induction l as [|[x y] l IH]; intros s; simpl.
  - exists []. reflexivity.
  - unfold bind at 1. unfold total2 at 1. simpl.
    destruct (g x y s) as [v s1] eqn:Hg. simpl.
    destruct (IH s1) as [vs Hvs]. exists (v :: vs).
    unfold bind. rewrite Hvs. reflexivity.
Qed.

(** C6: [zipWith] gives [None].  When the calls of [f] complete, they are
    made on the pairs of items from left to right, the shorter sequence
    continued with [None], their effects stay, and their values are dropped.
    Whatever [f] is, a value [zipWith] returns is [None]. *)
Theorem zipWith_returns_None :
  (forall (g : V -> V -> S -> V * S) (xs ys : list V) (s : S),
     Useful.zipWith (cls := cls) none (total2 g) xs ys s =
       (Ret none,
        fold_left (fun t p => snd (g (fst p) (snd p) t)) (pad_pairs none xs ys) s)) /\
  (forall (f : V -> V -> M cls S V) (xs ys : list V) (s s' : S) (v : V),
     Useful.zipWith none f xs ys s = (Ret v, s') -> v = none).
Proof.
  split.
  - intros g xs ys s. unfold Useful.zipWith, map2, bind.
    destruct (for_each_total g (pad_pairs none xs ys) s) as [vs Hvs].
    rewrite Hvs. reflexivity.
  - intros f xs ys s s' v. unfold Useful.zipWith, bind.
    destruct (map2 none f xs ys s) as [[vs | exn] s1]; unfold ret.
    + intros Heq. inversion Heq. reflexivity.
    + discriminate.
Qed.

(** An exception of [f] ends [zipWith] at that call. *)
Lemma zipWith_raises (f : V -> V -> M cls S V) (x y : V) (xs ys : list V)
    (s s' : S) (exn : pyexn cls) :
  f x y s = (Raise exn, s') ->
  Useful.zipWith none f (x :: xs) (y :: ys) s = (Raise exn, s').
Proof.
  intros Hf. unfold Useful.zipWith, map2, bind. simpl. unfold bind.
  rewrite Hf. reflexivity.
Qed.

End ZipWith.

(** [zipWith] with an addition that logs its sum: on sequences of the
    same length the sums are in the log and the result is [None]; on
    sequences of different lengths the addition meets the [None] that
    continues the shorter one, and its [TypeError] ends [zipWith]. *)
Example zipWith_logged :
  let add x y : M Py27.builtin (list Doctest.pyval) Doctest.pyval :=
    v <- Doctest.int_add x y ;; (fun log => (Ret v, log ++ [v])) in
  Useful.zipWith Doctest.VNone add
    [Doctest.VInt 1; Doctest.VInt 2] [Doctest.VInt 10; Doctest.VInt 20] [] =
    (Ret Doctest.VNone, [Doctest.VInt 11; Doctest.VInt 22]) /\
  Useful.zipWith Doctest.VNone add
    [Doctest.VInt 1; Doctest.VInt 2] [Doctest.VInt 10] [] =
    (Raise (mk_exn Py27.E_TypeError "unsupported operand type(s) for +"),
     [Doctest.VInt 11]).
Proof. split; reflexivity. Qed.

Lemma zipWith_returns_None_witness :
  let g (x y : Doctest.pyval) (log : list Doctest.pyval) := (x, log ++ [x; y]) in
  let xs := [Doctest.VInt 1; Doctest.VInt 2] in
  let ys := [Doctest.VStr "a"] in
  let log := [Doctest.VInt 1; Doctest.VStr "a"; Doctest.VInt 2; Doctest.VNone] in
  Useful.zipWith (cls := Py27.builtin) Doctest.VNone (total2 g) xs ys [] =
    (Ret Doctest.VNone, log) /\
  (Useful.zipWith (cls := Py27.builtin) Doctest.VNone (total2 g) xs ys [] =
     (Ret Doctest.VNone, log) ->
   Doctest.VNone = Doctest.VNone).
Proof.
  intros g xs ys log. split.
  - exact (proj1 (zipWith_returns_None (cls := Py27.builtin) Doctest.VNone) g xs ys []).
  - exact (proj2 (zipWith_returns_None (cls := Py27.builtin) Doctest.VNone)
             (total2 g) xs ys [] log Doctest.VNone).
Defined.

(** ** [transpose] *)

Section Transpose.
Context {V : Type}.
Implicit Types (its rows m : list (list V)) (t col row : list V).

Local Open Scope nat_scope.

Lemma shortest_le rows row : row ∈ rows -> shortest rows <= length row.
Proof.
  induction rows as [|r rs IH]; intros Hin; [inversion Hin|].
  simpl. destruct rs as [|r' rs'].
  - apply list_elem_of_singleton in Hin. subst. lia.
  - apply elem_of_cons in Hin as [-> | Hin]; [lia|].
    specialize (IH Hin). lia.
Qed.

Lemma shortest_attained rows :
  rows <> [] -> exists row, row ∈ rows /\ length row = shortest rows.
Proof.
  induction rows as [|r rs IH]; intros Hne; [congruence|].
  simpl. destruct rs as [|r' rs'].
  - exists r. split; [left | reflexivity].
  - destruct IH as (row & Hin & Hlen); [discriminate|].
    destruct (Nat.le_ge_cases (length r) (shortest (r' :: rs'))) as [Hle | Hge].
    + exists r. split; [left | lia].
    + exists row. split; [right; exact Hin | lia].
Qed.

(** A round of [zip] takes the first item off every iterator. *)
Lemma next_all_Some its t its' :
  next_all its = Some (t, its') ->
  length t = length its /\ length its' = length its /\
  forall i row, its !! i = Some row ->
    exists x row', row = x :: row' /\ t !! i = Some x /\ its' !! i = Some row'.
Proof.
  revert t its'. induction its as [|it rest IH]; intros t its' Hn; simpl in Hn.
  - inversion Hn; subst. repeat split. intros i row Hi. destruct i; discriminate.
  - destruct it as [|x it']; [discriminate|].
    destruct (next_all rest) as [[t0 rest']|] eqn:Hr; [|discriminate].
    inversion Hn; subst. destruct (IH _ _ eq_refl) as (Hl1 & Hl2 & Hlk).
    simpl. split; [lia|]. split; [lia|].
    intros i row Hi. destruct i as [|i]; simpl in *.
    + inversion Hi; subst. eauto.
    + apply Hlk. exact Hi.
Qed.

Lemma next_all_shortest its t its' :
  next_all its = Some (t, its') -> its <> [] ->
  shortest its = Datatypes.S (shortest its').
Proof.
  revert t its'. induction its as [|it rest IH]; intros t its' Hn Hne; [congruence|].
  simpl in Hn. destruct it as [|x it']; [discriminate|].
  destruct (next_all rest) as [[t0 rest']|] eqn:Hr; [|discriminate].
  inversion Hn; subst.
  destruct rest as [|r2 rest2].
  - simpl in Hr. inversion Hr; subst. reflexivity.
  - pose proof (next_all_Some _ _ _ Hr) as (_ & Hlen & _).
    destruct rest' as [|r2' rest2']; [discriminate|].
    specialize (IH _ _ eq_refl ltac:(discriminate)).
    change (Nat.min (length (x :: it')) (shortest (r2 :: rest2)) =
            Datatypes.S (Nat.min (length it') (shortest (r2' :: rest2')))).
    rewrite IH. simpl. reflexivity.
Qed.

Lemma next_all_None its : next_all its = None -> shortest its = 0.
Proof.
  induction its as [|it rest IH]; intros Hn; [discriminate|].
  simpl in Hn. destruct it as [|x it'].
  - simpl. destruct rest; reflexivity.
  - destruct (next_all rest) as [[t0 rest']|] eqn:Hr; [discriminate|].
    specialize (IH eq_refl). destruct rest as [|r2 rest2]; [discriminate|].
    change (Nat.min (length (x :: it')) (shortest (r2 :: rest2)) = 0).
    rewrite IH. apply Nat.min_0_r.
Qed.

(** The loop of [zip] makes as many tuples as the shortest iterator has
    items, when the fuel lets it. *)
Lemma zip_loop_length fuel its :
  its <> [] -> length (zip_loop fuel its) = Nat.min fuel (shortest its).
Proof.
  revert its. induction fuel as [|k IH]; intros its Hne; [reflexivity|].
  simpl. destruct (next_all its) as [[t its']|] eqn:Hn.
  - pose proof (next_all_Some _ _ _ Hn) as (_ & Hlen & _).
    rewrite (next_all_shortest _ _ _ Hn Hne). simpl. f_equal. apply IH.
    intros ->. destruct its; [congruence | discriminate].
  - rewrite (next_all_None _ Hn). simpl. lia.
Qed.

(** More fuel than the shortest iterator has items changes nothing. *)
Lemma zip_loop_fuel fuel its :
  its <> [] -> shortest its <= fuel ->
  zip_loop fuel its = zip_loop (shortest its) its.
Proof.
  revert its. induction fuel as [|k IH]; intros its Hne Hle.
  - replace (shortest its) with 0 by lia. reflexivity.
  - simpl. destruct (next_all its) as [[t its']|] eqn:Hn.
    + pose proof (next_all_Some _ _ _ Hn) as (_ & Hlen & _).
      rewrite (next_all_shortest _ _ _ Hn Hne) in *. simpl. rewrite Hn.
      f_equal. apply IH; [|lia].
      intros ->. destruct its; [congruence | discriminate].
    + rewrite (next_all_None _ Hn). reflexivity.
Qed.

(** Tuple [j] holds item [j] of every iterator, in the order of the
    iterators. *)
Lemma zip_loop_lookup fuel its j col :
  zip_loop fuel its !! j = Some col ->
  length col = length its /\
  forall i row, its !! i = Some row ->
    exists x, row !! j = Some x /\ col !! i = Some x.
Proof.
  revert its j. induction fuel as [|k IH]; intros its j Hj; [discriminate|].
  simpl in Hj. destruct (next_all its) as [[t its']|] eqn:Hn; [|discriminate].
  pose proof (next_all_Some _ _ _ Hn) as (Hlt & Hlen & Hrows).
  destruct j as [|j]; simpl in Hj.
  - inversion Hj; subst. split; [exact Hlt|].
    intros i row Hi. destruct (Hrows i row Hi) as (x & row' & -> & Ht & _).
    exists x. split; [reflexivity | exact Ht].
  - destruct (IH _ _ Hj) as (Hlc & Hitems). split; [lia|].
    intros i row Hi. destruct (Hrows i row Hi) as (x & row' & -> & _ & Hi').
    exact (Hitems i row' Hi').
Qed.

(** C8: [transpose m] has as many rows as the shortest row of [m] has items;
    its row [j] has an item for every row of [m], and item [i] of it is item
    [j] of row [i] of [m]. *)
Theorem transpose_spec m :
  length (Useful.transpose m) = shortest m /\
  (forall j col, Useful.transpose m !! j = Some col ->
     length col = length m /\
     forall i row, m !! i = Some row ->
       exists x, row !! j = Some x /\ col !! i = Some x) /\
  Useful.transpose [[1; 2; 3]; [4; 5; 6]]%Z = [[1; 4]; [2; 5]; [3; 6]]%Z.
Proof.
  unfold Useful.transpose, zip. split; [|split].
  - destruct m as [|s rest]; [reflexivity|].
    assert (Hid : map iter (s :: rest) = s :: rest) by apply map_id.
    rewrite Hid, zip_loop_length by discriminate.
    apply Nat.min_r, shortest_le. left.
  - intros j col Hj. destruct m as [|s rest]; [discriminate|].
    assert (Hid : map iter (s :: rest) = s :: rest) by apply map_id.
    rewrite Hid in Hj. exact (zip_loop_lookup _ _ _ _ Hj).
  - reflexivity.
Qed.

End Transpose.

(** Rows of unequal lengths: the columns past the shortest row are left
    out. *)
Example transpose_ragged :
  Useful.transpose [[1; 2; 3]; [4; 5]; [6; 7; 8; 9]] = [[1; 4; 6]; [2; 5; 7]] /\
  Useful.transpose [[1; 2; 3]; []] = [] /\
  Useful.transpose (@nil (list Z)) = [].
Proof. repeat split. Qed.

Lemma transpose_spec_witness :
  let m := [[1; 2; 3]; [4; 5]; [6; 7; 8; 9]] in
  Useful.transpose m !! 1%nat = Some [2; 5; 7] /\
  length [2; 5; 7] = length m /\
  forall i row, m !! i = Some row ->
    exists x, row !! 1%nat = Some x /\ [2; 5; 7] !! i = Some x.
Proof.
  intros m. split; [reflexivity|].
  exact (proj1 (proj2 (transpose_spec m)) 1%nat [2; 5; 7] eq_refl).
Defined.

(** ** The store *)

Section StoreFacts.
Context `{ExnHierarchy cls} {O : Type}.
Implicit Types (h : gmap loc O) (l : loc) (o : O).

(** A new object is at a location that held nothing, and no other location
    changes. *)
Lemma alloc_fresh o h :
  exists l, alloc (cls := cls) o h = (Ret l, <[l := o]> h) /\ h !! l = None.
Proof.
  exists (fresh (dom h)). split; [reflexivity|].
  apply not_elem_of_dom, is_fresh.
Qed.

Lemma load_at l o h : h !! l = Some o -> load l h = (Ret o, h).
Proof. intros Hl. unfold load. rewrite Hl. reflexivity. Qed.

Lemma save_at l o o' h : h !! l = Some o -> save l o' h = (Ret tt, <[l := o']> h).
Proof. intros Hl. unfold save, bind. rewrite (load_at _ _ _ Hl). reflexivity. Qed.

End StoreFacts.

(** ** [update_list] *)

Section UpdateList.
Context `{ExnHierarchy cls} {V : Type}.
Implicit Types (h : gmap loc (list V)) (xs : loc) (items : list V).

(** [list(xs)] copies: the new list is at a new location. *)
Lemma list_copy h xs items :
  h !! xs = Some items ->
  exists new_xs,
    list_ xs h = (Ret new_xs, <[new_xs := items]> h) /\ h !! new_xs = None.
Proof.
  intros Hxs. unfold list_, bind. rewrite (load_at _ _ _ Hxs).
  apply alloc_fresh.
Qed.

(** An assignment inside the list replaces the item the index names. *)
Lemma list_setitem_inside h xs items index x :
  h !! xs = Some items ->
  - Z.of_nat (length items) <= index < Z.of_nat (length items) ->
  list_setitem xs index x h =
    (Ret tt, <[xs := <[Z.to_nat (index mod Z.of_nat (length items)) := x]> items]> h).
Proof.
  intros Hxs Hrange. unfold list_setitem, bind. rewrite (load_at _ _ _ Hxs).
  set (n := Z.of_nat (length items)) in *.
  destruct (Z.ltb_spec index 0) as [Hneg | Hpos].
  - assert (Hmod : index mod n = index + n).
    { symmetry. apply (Z.mod_unique index n (-1) (index + n)); lia. }
    rewrite Hmod.
    destruct (Z.ltb_spec (index + n) 0); [lia|].
    destruct (Z.leb_spec n (index + n)); [lia|]. simpl.
    apply (save_at _ _ _ _ Hxs).
  - rewrite (Z.mod_small index n) by lia.
    destruct (Z.ltb_spec index 0); [lia|].
    destruct (Z.leb_spec n index); [lia|]. simpl.
    apply (save_at _ _ _ _ Hxs).
Qed.

(** An assignment outside the list raises [IndexError] and changes
    nothing. *)
Lemma list_setitem_outside h xs items index x :
  h !! xs = Some items ->
  ~ (- Z.of_nat (length items) <= index < Z.of_nat (length items)) ->
  exists msg, list_setitem xs index x h = (Raise (mk_exn IndexError msg), h).
Proof.
  intros Hxs Hrange. unfold list_setitem, bind. rewrite (load_at _ _ _ Hxs).
  set (n := Z.of_nat (length items)) in *.
  eexists.
  destruct (Z.ltb_spec index 0) as [Hneg | Hpos].
  - destruct (Z.ltb_spec (index + n) 0); [reflexivity | lia].
  - destruct (Z.ltb_spec index 0); [lia|].
    destruct (Z.leb_spec n index); [reflexivity | lia].
Qed.

(** C5: let [xs] be a list of the store with items [items], [n] of them.
    [update_list xs index new_x] makes a new list.  When [-n <= index < n] it
    returns the new list, whose items are those of [xs] except for [new_x]
    at position [index] counted from the end when negative ([index mod n]);
    otherwise it raises [IndexError].  Either way [xs] keeps its items and
    no list that was in the store changes. *)
Theorem update_list_spec h xs items index (new_x : V) :
  h !! xs = Some items ->
  let n := Z.of_nat (length items) in
  exists new_xs : loc,
    h !! new_xs = None /\
    (- n <= index < n ->
     exists new_items h',
       Useful.update_list xs index new_x h = (Ret new_xs, h') /\
       h' = <[new_xs := new_items]> h /\
       h' !! xs = Some items /\
       length new_items = length items /\
       new_items !! Z.to_nat (index mod n) = Some new_x /\
       forall k, k <> Z.to_nat (index mod n) -> new_items !! k = items !! k) /\
    (~ (- n <= index < n) ->
     exists msg h',
       Useful.update_list xs index new_x h = (Raise (mk_exn IndexError msg), h') /\
       h' = <[new_xs := items]> h /\
       h' !! xs = Some items).
Proof.
  intros Hxs n.
  destruct (list_copy _ _ _ Hxs) as (new_xs & Hcopy & Hnew).
  assert (Hne : new_xs <> xs) by (intros ->; congruence).
  assert (Hat : <[new_xs := items]> h !! new_xs = Some items)
    by apply lookup_insert_eq.
  exists new_xs. split; [exact Hnew|]. split.
  - intros Hrange.
    exists (<[Z.to_nat (index mod n) := new_x]> items).
    exists (<[new_xs := <[Z.to_nat (index mod n) := new_x]> items]> h).
    assert (Hlt : (Z.to_nat (index mod n) < length items)%nat).
    { pose proof (Z.mod_pos_bound index n ltac:(lia)). lia. }
    split; [|split; [reflexivity|split; [|split; [|split]]]].
    + unfold Useful.update_list, bind. rewrite Hcopy.
      rewrite (list_setitem_inside _ _ _ _ new_x Hat Hrange).
      fold n. rewrite insert_insert_eq. reflexivity.
    + rewrite lookup_insert_ne by exact Hne. exact Hxs.
    + apply length_insert.
    + apply list_lookup_insert_eq. exact Hlt.
    + intros k Hk. apply list_lookup_insert_ne. congruence.
  - intros Hrange.
    destruct (list_setitem_outside _ _ _ _ new_x Hat Hrange) as [msg Hset].
    exists msg, (<[new_xs := items]> h).
    split; [|split; [reflexivity|]].
    + unfold Useful.update_list, bind. rewrite Hcopy, Hset. reflexivity.
    + rewrite lookup_insert_ne by exact Hne. exact Hxs.
Qed.

End UpdateList.

Section UpdateListExamples.
Import Py27 Doctest.

(** The docstring: [update_list([1,2,3], -1, 42)], [update_list([], 2, 42)],
    [update_list([1,2,3], 3, 42)], [update_list([1,2,3], 2, 42)] and
    [update_list([1,2,3,4,5], 0, 42)]. *)
Example update_list_doctest :
  run_update_list [1; 2; 3] (-1) 42 = (inl [1; 2; 42], Some [1; 2; 3]) /\
  run_update_list [] 2 42 = (inr E_IndexError, Some []) /\
  run_update_list [1; 2; 3] 3 42 = (inr E_IndexError, Some [1; 2; 3]) /\
  run_update_list [1; 2; 3] 2 42 = (inl [1; 2; 42], Some [1; 2; 3]) /\
  run_update_list [1; 2; 3; 4; 5] 0 42 = (inl [42; 2; 3; 4; 5], Some [1; 2; 3; 4; 5]) /\
  run_update_list [1; 2; 3] (-3) 42 = (inl [42; 2; 3], Some [1; 2; 3]) /\
  run_update_list [1; 2; 3] (-4) 42 = (inr E_IndexError, Some [1; 2; 3]).
Proof. repeat split; vm_compute; reflexivity. Qed.

Lemma update_list_spec_witness :
  let h : gmap loc (list Z) := {[ 1%positive := [1; 2; 3] ]} in
  let xs : loc := 1%positive in
  h !! xs = Some [1; 2; 3] /\
  exists new_xs : loc,
    h !! new_xs = None /\
    (- 3 <= -1 < 3 ->
     exists new_items h',
       Useful.update_list (cls := builtin) xs (-1) 42 h = (Ret new_xs, h') /\
       h' = <[new_xs := new_items]> h /\
       h' !! xs = Some [1; 2; 3] /\
       length new_items = 3%nat /\
       new_items !! 2%nat = Some 42 /\
       forall k, k <> 2%nat -> new_items !! k = [1; 2; 3] !! k) /\
    (~ (- 3 <= -1 < 3) ->
     exists msg h',
       Useful.update_list (cls := builtin) xs (-1) 42 h =
         (Raise (mk_exn IndexError msg), h') /\
       h' = <[new_xs := [1; 2; 3]]> h /\
       h' !! xs = Some [1; 2; 3]).
Proof.
  intros h xs. split; [reflexivity|].
  exact (update_list_spec (cls := builtin) h xs [1; 2; 3] (-1) 42 eq_refl).
Defined.

End UpdateListExamples.

(** ** [union_with] *)

Section UnionWith.
Context `{ExnHierarchy cls} `{Countable K} {V : Type}.
Implicit Types (h : gmap loc (gmap K V)) (d new : loc) (m acc : gmap K V).

(** [d.keys()] lists the keys of [d]. *)
Lemma dict_keys_at h d m :
  h !! d = Some m ->
  dict_keys d h = (Ret (map fst (map_to_list m)), h).
Proof. intros Hd. unfold dict_keys, bind. rewrite (load_at _ _ _ Hd). reflexivity. Qed.

Lemma elem_of_keys m (k : K) : k ∈ map fst (map_to_list m) <-> k ∈ dom m.
Proof.
  rewrite list_elem_of_In, in_map_iff, elem_of_dom. split.
  - intros ([k' v] & Hk & Hin). simpl in Hk. subst k'.
    apply list_elem_of_In, elem_of_map_to_list in Hin. eauto.
  - intros [v Hv]. exists (k, v). split; [reflexivity|].
    apply list_elem_of_In, elem_of_map_to_list. exact Hv.
Qed.

Lemma dict_get_at h d m (key : K) (default : V) :
  h !! d = Some m ->
  dict_get d key default h =
    (Ret (match m !! key with Some v => v | None => default end), h).
Proof. intros Hd. unfold dict_get, bind. rewrite (load_at _ _ _ Hd). reflexivity. Qed.

Lemma dict_setitem_at h d acc (key : K) (v : V) :
  dict_setitem d key v (<[d := acc]> h) = (Ret tt, <[d := <[key := v]> acc]> h).
Proof.
  unfold dict_setitem, bind.
  rewrite (load_at d acc (<[d := acc]> h)) by apply lookup_insert_eq.
  rewrite (save_at d acc _ (<[d := acc]> h)) by apply lookup_insert_eq.
  rewrite insert_insert_eq. reflexivity.
Qed.

(** The loop of the comprehension, for values that are read without
    changing the store: key after key is set in the new dictionary. *)
Lemma comprehension_loop (value : K -> M cls (gmap loc (gmap K V)) V) (val : K -> V)
    h d (keys : list K) acc :
  (forall key acc', value key (<[d := acc']> h) = (Ret (val key), <[d := acc']> h)) ->
  exists units,
    for_each (fun key => v <- value key ;; dict_setitem d key v) keys (<[d := acc]> h) =
      (Ret units, <[d := fold_left (fun a key => <[key := val key]> a) keys acc]> h).
Proof.
  intros Hvalue. revert acc. induction keys as [|key keys IH]; intros acc; simpl.
  - exists []. reflexivity.
  - destruct (IH (<[key := val key]> acc)) as [units Hunits].
    exists (tt :: units). unfold bind at 1. unfold bind at 1.
    rewrite Hvalue. cbn beta iota. rewrite dict_setitem_at. cbn beta iota.
    unfold bind at 1. rewrite Hunits. reflexivity.
Qed.

Lemma fold_insert_lookup (val : K -> V) (keys : list K) acc (k : K) :
  fold_left (fun a key => <[key := val key]> a) keys acc !! k =
    if decide (k ∈ keys) then Some (val k) else acc !! k.
Proof.
  revert acc. induction keys as [|key keys IH]; intros acc; simpl.
  - destruct (decide (k ∈ [])) as [Hin | _]; [inversion Hin | reflexivity].
  - rewrite IH. destruct (decide (k ∈ keys)) as [Hin | Hnin].
    + rewrite decide_True by (right; exact Hin). reflexivity.
    + destruct (decide (k = key)) as [-> | Hne].
      * rewrite lookup_insert_eq, decide_True by left. reflexivity.
      * rewrite lookup_insert_ne by congruence.
        rewrite decide_False; [reflexivity|].
        intros Hin. apply elem_of_cons in Hin as [? | ?]; contradiction.
Qed.

(** C1: let [d1] and [d2] be dictionaries of the store, with the entries
    [m1] and [m2].  [union_with mempty mappend d1 d2] returns a new
    dictionary; its keys are the keys of [d1] and those of [d2], and at a key
    [k] it holds [mappend v1 v2], [v1] being the value of [d1] at [k], or
    [mempty] when [d1] has none, and [v2] that of [d2] or [mempty].  [d1],
    [d2] and every other dictionary of the store are as they were. *)
Theorem union_with_spec (mempty : V) (mappend : V -> V -> V) h d1 d2 m1 m2 :
  h !! d1 = Some m1 ->
  h !! d2 = Some m2 ->
  exists new result,
    Useful.union_with mempty mappend d1 d2 h = (Ret new, <[new := result]> h) /\
    h !! new = None /\
    <[new := result]> h !! d1 = Some m1 /\
    <[new := result]> h !! d2 = Some m2 /\
    dom result = dom m1 ∪ dom m2 /\
    forall k, k ∈ dom m1 ∪ dom m2 ->
      result !! k = Some (mappend (default mempty (m1 !! k)) (default mempty (m2 !! k))).
Proof.
  intros Hd1 Hd2.
  set (val := fun k : K => mappend (default mempty (m1 !! k)) (default mempty (m2 !! k))).
  set (keys := elements (set_ (map fst (map_to_list m1) ++ map fst (map_to_list m2)))).
  assert (Hkeys : forall k, k ∈ keys <-> k ∈ dom m1 ∪ dom m2).
  { intros k. unfold keys, set_.
    rewrite elem_of_elements, elem_of_list_to_set, elem_of_app, !elem_of_keys.
    rewrite elem_of_union. reflexivity. }
  destruct (alloc_fresh (cls := cls) (∅ : gmap K V) h) as (new & Halloc & Hnew).
  assert (Hne1 : new <> d1) by (intros ->; congruence).
  assert (Hne2 : new <> d2) by (intros ->; congruence).
  set (result := fold_left (fun (a : gmap K V) key => <[key := val key]> a) keys ∅).
  assert (Hresult : forall k, result !! k = if decide (k ∈ keys) then Some (val k) else None).
  { intros k. unfold result. rewrite fold_insert_lookup, lookup_empty. reflexivity. }
  exists new, result. split; [|split; [exact Hnew|split; [|split; [|split]]]].
  - edestruct (comprehension_loop
                 (fun key => v1 <- dict_get d1 key mempty ;;
                             v2 <- dict_get d2 key mempty ;;
                             ret (mappend v1 v2))
                 val h new keys ∅) as [units Hloop].
    { intros key acc'. unfold bind.
      rewrite (dict_get_at _ d1 m1) by (rewrite lookup_insert_ne; assumption).
      rewrite (dict_get_at _ d2 m2) by (rewrite lookup_insert_ne; assumption).
      unfold val, ret. destruct (m1 !! key), (m2 !! key); reflexivity. }
    unfold Useful.union_with.
    rewrite (bind_returned _ _ _ _ _ (dict_keys_at _ _ _ Hd1)).
    rewrite (bind_returned _ _ _ _ _ (dict_keys_at _ _ _ Hd2)).
    unfold dict_comprehension.
    rewrite (bind_returned _ _ _ _ _ Halloc).
    fold keys. rewrite (bind_returned _ _ _ _ _ Hloop). reflexivity.
  - rewrite lookup_insert_ne by exact Hne1. exact Hd1.
  - rewrite lookup_insert_ne by exact Hne2. exact Hd2.
  - apply set_eq. intros k. rewrite elem_of_dom, Hresult, <- Hkeys.
    destruct (decide (k ∈ keys)) as [Hin | Hnin].
    + split; [intros _; exact Hin | intros _; eexists; reflexivity].
    + split; [intros [v Hv]; discriminate | intros Hin; contradiction].
  - intros k Hk. rewrite Hresult, decide_True by (apply Hkeys; exact Hk).
    reflexivity.
Qed.

End UnionWith.

Section UnionWithExamples.
Import Py27 Doctest.

Local Open Scope string_scope.

(** The docstring, with lists joined by [+] and with integers added. *)
Example union_with_doctest :
  run_union_with [] (@app Z) ∅ ∅ = (Some ∅, Some ∅, Some ∅) /\
  (let d1 : gmap string (list Z) := <["a" := [42]]> (<["b" := [12]]> {["c" := [4]]}) in
   let d2 : gmap string (list Z) := <["a" := [3]]> (<["b" := [2]]> {["d" := [0]]}) in
   run_union_with [] (@app Z) d1 d2 =
     (Some (<["a" := [42; 3]]> (<["c" := [4]]> (<["b" := [12; 2]]> {["d" := [0]]}))),
      Some d1, Some d2) /\
   run_union_with [] (@app Z) d2 d1 =
     (Some (<["a" := [3; 42]]> (<["c" := [4]]> (<["b" := [2; 12]]> {["d" := [0]]}))),
      Some d2, Some d1)) /\
  (let d1 : gmap string Z := <["a" := 3]> (<["b" := 2]> {["d" := 0]}) in
   let d2 : gmap string Z := <["a" := 42]> (<["b" := 12]> {["c" := 4]}) in
   run_union_with 0 Z.add d1 d2 =
     (Some (<["a" := 45]> (<["c" := 4]> (<["b" := 14]> {["d" := 0]}))),
      Some d1, Some d2)).
Proof. repeat split; vm_compute; reflexivity. Qed.

Lemma union_with_spec_witness :
  let m1 : gmap string Z := <["a" := 3]> (<["b" := 2]> {["d" := 0]}) in
  let m2 : gmap string Z := <["a" := 42]> (<["b" := 12]> {["c" := 4]}) in
  let d1 : loc := 1%positive in
  let d2 : loc := 2%positive in
  let h : gmap loc (gmap string Z) := <[d2 := m2]> {[ d1 := m1 ]} in
  h !! d1 = Some m1 /\
  h !! d2 = Some m2 /\
  exists new result,
    Useful.union_with (cls := builtin) 0 Z.add d1 d2 h = (Ret new, <[new := result]> h) /\
    h !! new = None /\
    <[new := result]> h !! d1 = Some m1 /\
    <[new := result]> h !! d2 = Some m2 /\
    dom result = dom m1 ∪ dom m2 /\
    forall k, k ∈ dom m1 ∪ dom m2 ->
      result !! k = Some (default 0 (m1 !! k) + default 0 (m2 !! k)).
Proof.
  intros m1 m2 d1 d2 h.
  split; [reflexivity|]. split; [reflexivity|].
  exact (union_with_spec (cls := builtin) 0 Z.add h d1 d2 m1 m2 eq_refl eq_refl).
Defined.

End UnionWithExamples.

(** * Further properties *)

(** ** [safe_reverse] *)

Section SafeReverse.
Context `{ExnHierarchy cls} {V : Type}.
Implicit Types (h : gmap loc (list V)) (xs : loc) (items : list V).

Lemma list_reverse_at h xs items :
  h !! xs = Some items ->
  list_reverse xs h = (Ret tt, <[xs := rev items]> h).
Proof.
  intros Hxs. unfold list_reverse.
  rewrite (bind_returned _ _ _ _ _ (load_at _ _ _ Hxs)).
  apply (save_at _ _ _ _ Hxs).
Qed.

(** X1: [safe_reverse xs] returns a list that was not in the store, with the
    items of [xs] in the opposite order; [xs] and every other list keep
    their items. *)
Theorem safe_reverse_spec h xs items :
  h !! xs = Some items ->
  exists new_xs h',
    Useful.safe_reverse xs h = (Ret new_xs, h') /\
    h !! new_xs = None /\
    h' = <[new_xs := rev items]> h /\
    h' !! xs = Some items.
Proof.
  intros Hxs. destruct (list_copy _ _ _ Hxs) as (new_xs & Hcopy & Hnew).
  exists new_xs, (<[new_xs := rev items]> h).
  split; [|split; [exact Hnew|split; [reflexivity|]]].
  - unfold Useful.safe_reverse.
    rewrite (bind_returned _ _ _ _ _ Hcopy).
    rewrite (bind_returned _ _ _ _ _
               (list_reverse_at (<[new_xs := items]> h) new_xs items
                  (lookup_insert_eq _ _ _))).
    rewrite insert_insert_eq. reflexivity.
  - rewrite lookup_insert_ne by (intros ->; congruence). exact Hxs.
Qed.

(** X2: reversing the reversed copy gives a third list with the items of
    [xs] in their order; the first copy stays reversed and [xs] is as it
    was. *)
Theorem safe_reverse_twice h xs items :
  h !! xs = Some items ->
  exists ys zs h1 h2,
    Useful.safe_reverse xs h = (Ret ys, h1) /\
    Useful.safe_reverse ys h1 = (Ret zs, h2) /\
    h2 !! zs = Some items /\
    h2 !! ys = Some (rev items) /\
    h2 !! xs = Some items /\
    zs <> ys /\ zs <> xs /\ ys <> xs.
Proof.
  intros Hxs.
  destruct (list_copy _ _ _ Hxs) as (ys & Hcopy1 & Hys).
  assert (Hrun1 : Useful.safe_reverse xs h = (Ret ys, <[ys := rev items]> h)).
  { unfold Useful.safe_reverse.
    rewrite (bind_returned _ _ _ _ _ Hcopy1).
    rewrite (bind_returned _ _ _ _ _
               (list_reverse_at (<[ys := items]> h) ys items (lookup_insert_eq _ _ _))).
    rewrite insert_insert_eq. reflexivity. }
  set (h1 := <[ys := rev items]> h) in *.
  assert (Hys1 : h1 !! ys = Some (rev items)) by apply lookup_insert_eq.
  assert (Hne : ys <> xs) by (intros ->; congruence).
  assert (Hxs1 : h1 !! xs = Some items)
    by (unfold h1; rewrite lookup_insert_ne by exact Hne; exact Hxs).
  destruct (list_copy _ _ _ Hys1) as (zs & Hcopy2 & Hzs).
  exists ys, zs, h1, (<[zs := items]> h1).
  split; [exact Hrun1|]. split.
  - unfold Useful.safe_reverse.
    rewrite (bind_returned _ _ _ _ _ Hcopy2).
    rewrite (bind_returned _ _ _ _ _
               (list_reverse_at (<[zs := rev items]> h1) zs (rev items)
                  (lookup_insert_eq _ _ _))).
    rewrite insert_insert_eq, rev_involutive. reflexivity.
  - assert (Hzy : zs <> ys) by (intros ->; congruence).
    assert (Hzx : zs <> xs) by (intros ->; congruence).
    split; [apply lookup_insert_eq|].
    split; [rewrite lookup_insert_ne by exact Hzy; exact Hys1|].
    split; [rewrite lookup_insert_ne by exact Hzx; exact Hxs1|].
    split; [exact Hzy | split; [exact Hzx | exact Hne]].
Qed.

End SafeReverse.

(** ** [safe_shuffle] *)

Section SafeShuffle.
Context `{ExnHierarchy cls} {V R : Type}.
Context (shuffle_items : list V -> R -> list V * R).
Implicit Types (h : gmap loc (list V)) (xs : loc) (items : list V) (r : R).

(** X3: whatever [random.shuffle] makes of the items of a list, it is done
    to a copy: [safe_shuffle xs] returns a list that was not in the store,
    [xs] and every other list keep their items, and when the library's
    shuffle rearranges, the new list is a rearrangement of [xs]. *)
Theorem safe_shuffle_spec h xs items r :
  (forall l r0, fst (shuffle_items l r0) ≡ₚ l) ->
  h !! xs = Some items ->
  exists new_xs new_items h' r',
    Useful.safe_shuffle shuffle_items xs (h, r) = (Ret new_xs, (h', r')) /\
    h !! new_xs = None /\
    h' = <[new_xs := new_items]> h /\
    h' !! xs = Some items /\
    new_items ≡ₚ items /\
    (new_items, r') = shuffle_items items r.
Proof.
  intros Hperm Hxs.
  destruct (list_copy _ _ _ Hxs) as (new_xs & Hcopy & Hnew).
  destruct (shuffle_items items r) as [new_items r'] eqn:Hsh.
  exists new_xs, new_items, (<[new_xs := new_items]> h), r'.
  split; [|split; [exact Hnew|split; [reflexivity|split; [|split]]]].
  - unfold Useful.safe_shuffle.
    assert (Hc : with_store (R := R) (list_ xs) (h, r) =
                 (Ret new_xs, (<[new_xs := items]> h, r)))
      by (unfold with_store; simpl; rewrite Hcopy; reflexivity).
    rewrite (bind_returned _ _ _ _ _ Hc).
    assert (Hs : random_shuffle shuffle_items new_xs (<[new_xs := items]> h, r) =
                 (Ret tt, (<[new_xs := new_items]> h, r'))).
    { unfold random_shuffle.
      assert (Hl : with_store (R := R) (load new_xs) (<[new_xs := items]> h, r) =
                   (Ret items, (<[new_xs := items]> h, r))).
      { unfold with_store. simpl.
        rewrite (load_at new_xs items) by apply lookup_insert_eq. reflexivity. }
      rewrite (bind_returned _ _ _ _ _ Hl). simpl.
      rewrite Hsh, insert_insert_eq. reflexivity. }
    rewrite (bind_returned _ _ _ _ _ Hs). reflexivity.
  - rewrite lookup_insert_ne by (intros ->; congruence). exact Hxs.
  - specialize (Hperm items r). rewrite Hsh in Hperm. exact Hperm.
  - reflexivity.
Qed.

End SafeShuffle.

(** ** [repeat] *)

Section Repeat.
Context `{ExnHierarchy cls} {V : Type}.

Lemma repeat_resumed (n : V) (k : nat) (frame : gen_frame) :
  frame <> Finished ->
  next_n (snd (Useful.repeat n)) (Datatypes.S k) frame =
    (Ret (List.repeat n (Datatypes.S k)), Suspended).
Proof.
  revert frame. induction k as [|k IH]; intros frame Hframe.
  - destruct frame; [reflexivity | reflexivity | congruence].
  - change (next_n (snd (Useful.repeat n)) (Datatypes.S (Datatypes.S k)) frame)
      with ((x <- snd (Useful.repeat n) ;;
             xs <- next_n (snd (Useful.repeat n)) (Datatypes.S k) ;;
             ret (x :: xs)) frame).
    assert (Hstep : snd (Useful.repeat n) frame = (Ret n, Suspended))
      by (destruct frame; [reflexivity | reflexivity | congruence]).
    rewrite (bind_returned _ _ _ _ _ Hstep).
    rewrite (bind_returned _ _ _ _ _ (IH Suspended ltac:(discriminate))).
    reflexivity.
Qed.

(** X4: the generator [repeat(n)] never ends: however many items are asked
    of it, each call of [next] gives [n] and none raises [StopIteration];
    the first [k] items are [replicate(k, n)]. *)
Theorem repeat_never_ends (n : V) (k : nat) :
  exists frame,
    next_n (snd (Useful.repeat n)) k (fst (Useful.repeat n)) =
      (Ret (Useful.replicate (Z.of_nat k) n), frame) /\
    frame <> Finished.
Proof.
  rewrite replicate_repeat.
  replace (Z.to_nat (Z.max (Z.of_nat k) 0)) with k by lia.
  destruct k as [|k].
  - exists Created. split; [reflexivity | discriminate].
  - exists Suspended. split; [|discriminate].
    apply repeat_resumed. discriminate.
Qed.

End Repeat.

(** ** [concat] *)

Section Concat.
Context {V : Type}.
Implicit Types (xss yss : list (list V)) (xs acc : list V).

(** The value [reduce] has so far stays in front of what follows. *)
Lemma reduce_app_acc xss acc :
  reduce (fun x1 x2 => x1 ++ x2) xss acc =
    acc ++ reduce (fun x1 x2 => x1 ++ x2) xss [].
Proof.
  unfold reduce. revert acc. induction xss as [|xs xss IH]; intros acc; simpl.
  - rewrite app_nil_r. reflexivity.
  - rewrite (IH (acc ++ xs)), (IH xs), app_assoc. reflexivity.
Qed.

Lemma concat_cons xs xss : Useful.concat (xs :: xss) = xs ++ Useful.concat xss.
Proof.
  unfold Useful.concat.
  change (reduce (fun x1 x2 => x1 ++ x2) (xs :: xss) [])
    with (reduce (fun x1 x2 : list V => x1 ++ x2) xss ([] ++ xs)).
  simpl. apply reduce_app_acc.
Qed.

(** X5: [concat xss] has as many items as the lists of [xss] have
    together. *)
Theorem concat_length xss :
  length (Useful.concat xss) = list_sum (map (@length V) xss).
Proof.
  induction xss as [|xs xss IH]; [reflexivity|].
  rewrite concat_cons, length_app, IH. reflexivity.
Qed.

(** X6: the concatenation of two sequences of lists, one after the other, is
    the concatenation of the first followed by that of the second. *)
Theorem concat_app xss yss :
  Useful.concat (xss ++ yss) = Useful.concat xss ++ Useful.concat yss.
Proof.
  induction xss as [|xs xss IH]; [reflexivity|].
  change ((xs :: xss) ++ yss) with (xs :: (xss ++ yss)).
  rewrite !concat_cons, IH, app_assoc. reflexivity.
Qed.

(** X7: the items of [concat xss] are the items of the lists of [xss], and
    [concat xss] is empty exactly when every list of [xss] is. *)
Theorem concat_items xss :
  (forall x, x ∈ Useful.concat xss <-> exists xs, xs ∈ xss /\ x ∈ xs) /\
  (Useful.concat xss = [] <-> Forall (fun xs => xs = []) xss).
Proof.
  split.
  - intros x. induction xss as [|xs xss IH].
    + split; [intros Hx; inversion Hx | intros (xs & Hxs & _); inversion Hxs].
    + rewrite concat_cons, elem_of_app, IH. split.
      * intros [Hx | (ys & Hys & Hx)].
        -- exists xs. split; [left | exact Hx].
        -- exists ys. split; [right; exact Hys | exact Hx].
      * intros (ys & Hys & Hx). apply elem_of_cons in Hys as [-> | Hys].
        -- left. exact Hx.
        -- right. exists ys. split; assumption.
  - induction xss as [|xs xss IH].
    + split; [intros _; constructor | reflexivity].
    + rewrite concat_cons. split.
      * intros Hnil. apply app_eq_nil in Hnil as [Hxs Hrest].
        constructor; [exact Hxs | apply IH; exact Hrest].
      * intros Hall. inversion Hall as [|? ? Hxs Hrest]; subst.
        apply IH in Hrest. rewrite Hrest. reflexivity.
Qed.

(** X8: [n] one-item lists [[x]] concatenated are [replicate(n, x)]. *)
Theorem concat_replicate (n : Z) (x : V) :
  Useful.concat (Useful.replicate n [x]) = Useful.replicate n x.
Proof.
  rewrite !replicate_repeat. generalize (Z.to_nat (Z.max n 0)). intros k.
  induction k as [|k IH]; [reflexivity|].
  simpl List.repeat. rewrite concat_cons, IH. reflexivity.
Qed.

End Concat.

(** [concat([])], [concat([[],[],[]])] and
    [concat([[1,2,3], range(10,20), ['hello']])] of the docstring, the last
    with integers only. *)
Example concat_doctest :
  Useful.concat (@nil (list Z)) = [] /\
  Useful.concat [[]; []; @nil Z] = [] /\
  Useful.concat [[1; 2; 3]; [10; 11; 12; 13; 14; 15; 16; 17; 18; 19]; [42]] =
    [1; 2; 3; 10; 11; 12; 13; 14; 15; 16; 17; 18; 19; 42].
Proof. repeat split. Qed.

(** ** [all_nones], and [all_same] on what [replicate] makes *)

Section AllNones.
Context `{ExnHierarchy cls} {V : Type} (none : V) (eq : V -> V -> bool).

(** X9: [all_nones] is true exactly when every item is equal, by [==], to
    [None]; it is true on the empty sequence. *)
Theorem all_nones_spec (xs : list V) :
  exists b,
    Useful.all_nones (cls := cls) none eq xs = Ret b /\
    (b = true <-> forall x, x ∈ xs -> eq x none = true).
Proof.
  exists (forallb (fun x => eq x none) xs). split.
  - apply all_of_forallb.
  - rewrite forallb_forall. split.
    + intros Hall x Hx. apply Hall, list_elem_of_In. exact Hx.
    + intros Hall x Hx. apply Hall, list_elem_of_In. exact Hx.
Qed.

(** X10: a sequence whose items are all [None] has all items the same,
    when values equal to [None] are equal to each other. *)
Theorem all_nones_all_same (xs : list V) :
  (forall x y, eq x none = true -> eq y none = true -> eq y x = true) ->
  Useful.all_nones (cls := cls) none eq xs = Ret true ->
  Useful.all_same none eq xs = Ret true.
Proof.
  intros Heq Hnones. unfold Useful.all_nones in Hnones.
  rewrite all_of_forallb in Hnones.
  assert (Hall : forallb (fun x => eq x none) xs = true)
    by (injection Hnones; intros Hb; exact Hb).
  clear Hnones. destruct xs as [|x0 rest].
  - unfold Useful.all_same.
    rewrite (bind_returned _ _ _ _ _ (maybe_next_nil none)). reflexivity.
  - rewrite all_same_cons. f_equal.
    simpl in Hall. apply andb_true_iff in Hall as [H0 Hrest].
    apply forallb_forall. intros y Hy.
    rewrite forallb_forall in Hrest. apply Heq; [exact H0 | apply Hrest; exact Hy].
Qed.

(** X11: the items [replicate] makes are all the same, whatever the count,
    when [x == x]. *)
Theorem all_same_replicate (n : Z) (x : V) :
  eq x x = true ->
  Useful.all_same none eq (Useful.replicate n x) = Ret true.
Proof.
  intros Hx. rewrite replicate_repeat.
  destruct (Z.to_nat (Z.max n 0)) as [|k].
  - unfold Useful.all_same.
    rewrite (bind_returned _ _ _ _ _ (maybe_next_nil none)). reflexivity.
  - simpl List.repeat. rewrite all_same_cons. f_equal.
    apply forallb_forall. intros y Hy. apply repeat_spec in Hy. subst. exact Hx.
Qed.

End AllNones.

(** ** More on [maybe] and [maybe_get] *)

Section MaybeMore.
Context `{ExnHierarchy cls}.
Implicit Types (exceptions : list cls) (exn : pyexn cls).

(** X12: a [maybe] around a [maybe] with the same classes adds nothing: the
    inner default is the one that shows, and an exception the inner call
    lets through gets through the outer one too. *)
Theorem maybe_nested {S A} (f : M cls S A) (d1 d2 : A) exceptions s :
  Useful.maybe (Useful.maybe f d1 exceptions) d2 exceptions s =
  Useful.maybe f d1 exceptions s.
Proof.
  destruct (Useful.maybe f d1 exceptions s) as [[v | exn] s'] eqn:Hinner.
  - apply maybe_returned. exact Hinner.
  - rewrite (maybe_raised _ d2 exceptions _ _ _ Hinner).
    destruct (f s) as [[v | exn0] s0] eqn:Hf.
    + rewrite (maybe_returned _ d1 exceptions _ _ _ Hf) in Hinner. discriminate.
    + rewrite (maybe_raised _ d1 exceptions _ _ _ Hf) in Hinner.
      destruct (isinstance exn0 SystemExit) eqn:Hexit.
      * inversion Hinner; subst. rewrite Hexit. reflexivity.
      * destruct (isinstance exn0 Exception) eqn:Hexc.
        -- destruct (any (map (fun e => isinstance exn0 e) exceptions)) eqn:Hany;
             [discriminate|].
           inversion Hinner; subst. rewrite Hexit, Hexc, Hany. reflexivity.
        -- inversion Hinner; subst. rewrite Hexit, Hexc. reflexivity.
Qed.

(** X13: [maybe] raises nothing of its own: an exception that comes out of
    it is the one [f] raised, in the state [f] left, and it is an instance
    of [SystemExit], or not one of [Exception], or an instance of no listed
    class. *)
Theorem maybe_raise_origin {S A} (f : M cls S A) default exceptions s exn s' :
  Useful.maybe f default exceptions s = (Raise exn, s') ->
  f s = (Raise exn, s') /\
  (isinstance exn SystemExit = true \/
   isinstance exn Exception = false \/
   forall e, e ∈ exceptions -> isinstance exn e = false).
Proof.
  intros Hm. destruct (f s) as [[v | exn0] s0] eqn:Hf.
  - rewrite (maybe_returned _ default exceptions _ _ _ Hf) in Hm. discriminate.
  - rewrite (maybe_raised _ default exceptions _ _ _ Hf) in Hm.
    destruct (isinstance exn0 SystemExit) eqn:Hexit.
    + inversion Hm; subst. split; [reflexivity | left; exact Hexit].
    + destruct (isinstance exn0 Exception) eqn:Hexc.
      * destruct (any (map (fun e => isinstance exn0 e) exceptions)) eqn:Hany;
          [discriminate|].
        inversion Hm; subst. split; [reflexivity|]. right. right.
        apply any_isinstance_none. exact Hany.
      * inversion Hm; subst. split; [reflexivity | right; left; exact Hexc].
Qed.

(** X14: listing more classes never turns a value into an exception: what
    [maybe] returns with some classes listed, it returns with any classes
    listed besides. *)
Theorem maybe_more_classes {S A} (f : M cls S A) default exceptions more s v s' :
  (forall e, e ∈ exceptions -> e ∈ more) ->
  Useful.maybe f default exceptions s = (Ret v, s') ->
  Useful.maybe f default more s = (Ret v, s').
Proof.
  intros Hsub Hm. destruct (f s) as [[v0 | exn] s0] eqn:Hf.
  - rewrite (maybe_returned _ default exceptions _ _ _ Hf) in Hm.
    rewrite (maybe_returned _ default more _ _ _ Hf). exact Hm.
  - rewrite (maybe_raised _ default exceptions _ _ _ Hf) in Hm.
    rewrite (maybe_raised _ default more _ _ _ Hf).
    destruct (isinstance exn SystemExit); [discriminate|].
    destruct (isinstance exn Exception); [|discriminate].
    destruct (any (map (fun e => isinstance exn e) exceptions)) eqn:Hany;
      [|discriminate].
    apply any_isinstance in Hany as (e & He & Hi).
    assert (Hmore : any (map (fun e => isinstance exn e) more) = true)
      by (apply any_isinstance; exists e; split; [apply Hsub; exact He | exact Hi]).
    rewrite Hmore. exact Hm.
Qed.

End MaybeMore.

Section MaybeGetBuiltin.
Import Py27 Doctest.

(** X15: of the built-in exceptions, [maybe_get] turns [LookupError],
    [IndexError] and [KeyError] into the default and lets every other one
    through. *)
Theorem maybe_get_builtin_classes {S A} (f : M builtin S A) default s exn s' :
  f s = (Raise exn, s') ->
  Useful.maybe_get f default s =
    if bool_decide (exn_class exn ∈ [E_LookupError; E_IndexError; E_KeyError])
    then (Ret default, s')
    else (Raise exn, s').
Proof.
  intros Hf. rewrite (maybe_get_builtin f default s exn s' Hf).
  destruct exn as [c a]. destruct c; reflexivity.
Qed.

Lemma maybe_more_classes_witness :
  (forall e, e ∈ [E_ZeroDivisionError] -> e ∈ [E_KeyError; E_ZeroDivisionError]) /\
  Useful.maybe (int_div 200 0) VNone [E_ZeroDivisionError] tt = (Ret VNone, tt) /\
  Useful.maybe (int_div 200 0) VNone [E_KeyError; E_ZeroDivisionError] tt = (Ret VNone, tt).
Proof.
  assert (Hsub : forall e, e ∈ [E_ZeroDivisionError] ->
                           e ∈ [E_KeyError; E_ZeroDivisionError])
    by (intros e He; right; exact He).
  split; [exact Hsub|]. split; [reflexivity|].
  exact (maybe_more_classes (int_div 200 0) VNone
           [E_ZeroDivisionError] [E_KeyError; E_ZeroDivisionError] tt VNone tt
           Hsub eq_refl).
Defined.

Lemma maybe_raise_origin_witness :
  let exn := mk_exn E_ZeroDivisionError "integer division or modulo by zero" in
  Useful.maybe (int_div 200 0) VNone [E_KeyError] tt = (Raise exn, tt) /\
  int_div 200 0 tt = (Raise exn, tt) /\
  (isinstance exn SystemExit = true \/
   isinstance exn Exception = false \/
   forall e, e ∈ [E_KeyError] -> isinstance exn e = false).
Proof.
  intros exn. split; [reflexivity|].
  exact (maybe_raise_origin (int_div 200 0) VNone [E_KeyError] tt exn tt eq_refl).
Defined.

Lemma maybe_get_builtin_classes_witness :
  range_getitem 0 100 100 tt = (Raise (mk_exn E_IndexError "list index out of range"), tt) /\
  Useful.maybe_get (range_getitem 0 100 100) VNone tt = (Ret VNone, tt).
Proof.
  split; [reflexivity|].
  exact (maybe_get_builtin_classes (range_getitem 0 100 100) VNone tt
           (mk_exn E_IndexError "list index out of range") tt eq_refl).
Defined.

End MaybeGetBuiltin.

(** ** More on [update_list] *)

Section UpdateListMore.
Context `{ExnHierarchy cls} {V : Type}.
Implicit Types (h : gmap loc (list V)) (xs : loc) (items : list V).

(** An update inside the list, run from a copy that is known. *)
Lemma update_list_inside h xs items index (new_x : V) new_xs :
  list_ xs h = (Ret new_xs, <[new_xs := items]> h) ->
  - Z.of_nat (length items) <= index < Z.of_nat (length items) ->
  Useful.update_list xs index new_x h =
    (Ret new_xs,
     <[new_xs := <[Z.to_nat (index mod Z.of_nat (length items)) := new_x]> items]> h).
Proof.
  intros Hcopy Hrange. unfold Useful.update_list.
  rewrite (bind_returned _ _ _ _ _ Hcopy).
  rewrite (bind_returned _ _ _ _ _
             (list_setitem_inside (<[new_xs := items]> h) new_xs items index new_x
                (lookup_insert_eq _ _ _) Hrange)).
  rewrite insert_insert_eq. reflexivity.
Qed.

(** X16: a position named from the end is the position named from the
    start: for [0 <= i < n], [update_list] with [i - n] and with [i] do the
    same. *)
Theorem update_list_negative_index h xs items i (new_x : V) :
  h !! xs = Some items ->
  0 <= i < Z.of_nat (length items) ->
  Useful.update_list xs (i - Z.of_nat (length items)) new_x h =
  Useful.update_list xs i new_x h.
Proof.
  intros Hxs Hi. destruct (list_copy _ _ _ Hxs) as (new_xs & Hcopy & _).
  rewrite (update_list_inside _ _ _ _ new_x _ Hcopy) by lia.
  rewrite (update_list_inside _ _ _ _ new_x _ Hcopy) by lia.
  replace ((i - Z.of_nat (length items)) mod Z.of_nat (length items))
    with (i mod Z.of_nat (length items)); [reflexivity|].
  rewrite Z.mod_small by lia.
  apply (Z.mod_unique _ _ (-1) i); lia.
Qed.

(** X17: two updates of the same position, one on the result of the other:
    the last list has the last value there, the list in between keeps the
    first value, and [xs] keeps its items. *)
Theorem update_list_twice h xs items index (a b : V) :
  h !! xs = Some items ->
  - Z.of_nat (length items) <= index < Z.of_nat (length items) ->
  let k := Z.to_nat (index mod Z.of_nat (length items)) in
  exists ys zs h1 h2,
    Useful.update_list xs index a h = (Ret ys, h1) /\
    Useful.update_list ys index b h1 = (Ret zs, h2) /\
    h2 !! zs = Some (<[k := b]> items) /\
    h2 !! ys = Some (<[k := a]> items) /\
    h2 !! xs = Some items.
Proof.
  intros Hxs Hrange k.
  destruct (list_copy _ _ _ Hxs) as (ys & Hcopy1 & Hys).
  pose proof (update_list_inside _ _ _ _ a _ Hcopy1 Hrange) as Hrun1.
  fold k in Hrun1. set (h1 := <[ys := <[k := a]> items]> h) in *.
  assert (Hys1 : h1 !! ys = Some (<[k := a]> items)) by apply lookup_insert_eq.
  assert (Hne : ys <> xs) by (intros ->; congruence).
  destruct (list_copy _ _ _ Hys1) as (zs & Hcopy2 & Hzs).
  assert (Hrange2 : - Z.of_nat (length (<[k := a]> items)) <= index
                    < Z.of_nat (length (<[k := a]> items)))
    by (rewrite length_insert; exact Hrange).
  pose proof (update_list_inside _ _ _ _ b _ Hcopy2 Hrange2) as Hrun2.
  rewrite length_insert in Hrun2. fold k in Hrun2.
  rewrite list_insert_insert_eq in Hrun2.
  exists ys, zs, h1, (<[zs := <[k := b]> items]> h1).
  split; [exact Hrun1|]. split; [exact Hrun2|].
  assert (Hxs1 : h1 !! xs = Some items)
    by (unfold h1; rewrite lookup_insert_ne by exact Hne; exact Hxs).
  assert (Hzy : zs <> ys) by (intros Heq; rewrite Heq in Hzs; congruence).
  assert (Hzx : zs <> xs) by (intros Heq; rewrite Heq in Hzs; congruence).
  split; [apply lookup_insert_eq|]. split.
  - rewrite lookup_insert_ne by exact Hzy. exact Hys1.
  - rewrite lookup_insert_ne by exact Hzx. exact Hxs1.
Qed.

End UpdateListMore.

(** ** More on [union_with] *)

Section UnionWithMore.
Context `{ExnHierarchy cls} `{Countable K} {V : Type}.
Implicit Types (h : gmap loc (gmap K V)) (m : gmap K V).

(** The run of [union_with], with the entries of the new dictionary. *)
Lemma union_with_run (mempty : V) (mappend : V -> V -> V) h d1 d2 m1 m2 :
  h !! d1 = Some m1 ->
  h !! d2 = Some m2 ->
  exists result,
    Useful.union_with mempty mappend d1 d2 h =
      (Ret (fresh (dom h)), <[fresh (dom h) := result]> h) /\
    forall k, result !! k =
      if decide (k ∈ dom m1 ∪ dom m2)
      then Some (mappend (default mempty (m1 !! k)) (default mempty (m2 !! k)))
      else None.
Proof.
  intros Hd1 Hd2.
  set (val := fun k : K => mappend (default mempty (m1 !! k)) (default mempty (m2 !! k))).
  set (keys := elements (set_ (map fst (map_to_list m1) ++ map fst (map_to_list m2)))).
  set (new := fresh (dom h)).
  assert (Hnew : h !! new = None) by apply not_elem_of_dom, is_fresh.
  assert (Hkeys : forall k, k ∈ keys <-> k ∈ dom m1 ∪ dom m2).
  { intros k. unfold keys, set_.
    rewrite elem_of_elements, elem_of_list_to_set, elem_of_app, !elem_of_keys.
    rewrite elem_of_union. reflexivity. }
  exists (fold_left (fun (a : gmap K V) key => <[key := val key]> a) keys ∅).
  split.
  - edestruct (comprehension_loop
                 (fun key => v1 <- dict_get d1 key mempty ;;
                             v2 <- dict_get d2 key mempty ;;
                             ret (mappend v1 v2))
                 val h new keys ∅) as [units Hloop].
    { intros key acc'. unfold bind.
      rewrite (dict_get_at _ d1 m1)
        by (rewrite lookup_insert_ne by (intros ->; congruence); assumption).
      rewrite (dict_get_at _ d2 m2)
        by (rewrite lookup_insert_ne by (intros ->; congruence); assumption).
      unfold val, ret. destruct (m1 !! key), (m2 !! key); reflexivity. }
    unfold Useful.union_with.
    rewrite (bind_returned _ _ _ _ _ (dict_keys_at _ _ _ Hd1)).
    rewrite (bind_returned _ _ _ _ _ (dict_keys_at _ _ _ Hd2)).
    unfold dict_comprehension.
    assert (Halloc : alloc (cls := cls) (∅ : gmap K V) h = (Ret new, <[new := ∅]> h))
      by reflexivity.
    rewrite (bind_returned _ _ _ _ _ Halloc).
    fold keys. rewrite (bind_returned _ _ _ _ _ Hloop). reflexivity.
  - intros k. rewrite fold_insert_lookup, lookup_empty.
    destruct (decide (k ∈ keys)) as [Hin | Hnin].
    + rewrite decide_True by (apply Hkeys; exact Hin). reflexivity.
    + rewrite decide_False; [reflexivity|]. intros Hk. apply Hnin, Hkeys, Hk.
Qed.

(** X18: with a commutative [mappend], the order of the two dictionaries
    does not matter. *)
Theorem union_with_comm (mempty : V) (mappend : V -> V -> V) h d1 d2 m1 m2 :
  (forall a b, mappend a b = mappend b a) ->
  h !! d1 = Some m1 ->
  h !! d2 = Some m2 ->
  Useful.union_with mempty mappend d1 d2 h = Useful.union_with mempty mappend d2 d1 h.
Proof.
  intros Hcomm Hd1 Hd2.
  destruct (union_with_run mempty mappend h d1 d2 m1 m2 Hd1 Hd2) as (r12 & Hrun12 & Hr12).
  destruct (union_with_run mempty mappend h d2 d1 m2 m1 Hd2 Hd1) as (r21 & Hrun21 & Hr21).
  rewrite Hrun12, Hrun21. f_equal. f_equal. apply map_eq. intros k.
  rewrite Hr12, Hr21.
  destruct (decide (k ∈ dom m1 ∪ dom m2)) as [Hin | Hnin].
  - rewrite decide_True by (apply elem_of_union; apply elem_of_union in Hin; tauto).
    rewrite Hcomm. reflexivity.
  - rewrite decide_False; [reflexivity|].
    intros Hin. apply Hnin. apply elem_of_union. apply elem_of_union in Hin. tauto.
Qed.

(** X19: when [mempty] is a right unit of [mappend], the union with an
    empty dictionary is a copy of [d1]: a new dictionary with the entries of
    [d1]. *)
Theorem union_with_empty (mempty : V) (mappend : V -> V -> V) h d1 d2 m1 :
  (forall v, mappend v mempty = v) ->
  h !! d1 = Some m1 ->
  h !! d2 = Some ∅ ->
  exists new,
    Useful.union_with mempty mappend d1 d2 h = (Ret new, <[new := m1]> h) /\
    h !! new = None.
Proof.
  intros Hunit Hd1 Hd2.
  destruct (union_with_run mempty mappend h d1 d2 m1 ∅ Hd1 Hd2) as (r & Hrun & Hr).
  exists (fresh (dom h)). split; [|apply not_elem_of_dom, is_fresh].
  rewrite Hrun. f_equal. f_equal. apply map_eq. intros k. rewrite Hr.
  rewrite lookup_empty. simpl. rewrite Hunit.
  destruct (decide (k ∈ dom m1 ∪ dom (∅ : gmap K V))) as [Hin | Hnin].
  - rewrite dom_empty_L, union_empty_r_L in Hin.
    apply elem_of_dom in Hin as [v Hv]. rewrite Hv. reflexivity.
  - rewrite dom_empty_L, union_empty_r_L in Hnin.
    apply not_elem_of_dom in Hnin. rewrite Hnin. reflexivity.
Qed.

End UnionWithMore.

(** ** More on [transpose] and [zipWith] *)

Section TransposeMore.
Context {V : Type}.
Implicit Types (m : list (list V)) (col row : list V).

Local Open Scope nat_scope.

Lemma transpose_length m : length (Useful.transpose m) = shortest m.
Proof.
  unfold Useful.transpose, zip. destruct m as [|s rest]; [reflexivity|].
  assert (Hid : map iter (s :: rest) = s :: rest) by apply map_id.
  rewrite Hid, zip_loop_length by discriminate.
  apply Nat.min_r, shortest_le. left.
Qed.

Lemma transpose_lookup m j col :
  Useful.transpose m !! j = Some col ->
  length col = length m /\
  forall i row, m !! i = Some row ->
    exists x, row !! j = Some x /\ col !! i = Some x.
Proof.
  unfold Useful.transpose, zip. intros Hj.
  destruct m as [|s rest]; [discriminate|].
  assert (Hid : map iter (s :: rest) = s :: rest) by apply map_id.
  rewrite Hid in Hj. exact (zip_loop_lookup _ _ _ _ Hj).
Qed.

Lemma shortest_rectangular m n :
  m <> [] -> Forall (fun row => length row = n) m -> shortest m = n.
Proof.
  intros Hne Hall. destruct (shortest_attained m Hne) as (row & Hin & Hlen).
  rewrite Forall_forall in Hall. rewrite <- Hlen. apply Hall, Hin.
Qed.

(** X20: on a table whose rows all have the same number of items, at least
    one, transposing twice gives the table back. *)
Theorem transpose_involutive m n :
  0 < n ->
  Forall (fun row => length row = n) m ->
  Useful.transpose (Useful.transpose m) = m.
Proof.
  intros Hn Hrows. destruct (decide (m = [])) as [-> | Hne]; [reflexivity|].
  assert (HlenT : length (Useful.transpose m) = n)
    by (rewrite transpose_length; apply shortest_rectangular; assumption).
  assert (HcolsT : Forall (fun col => length col = length m) (Useful.transpose m)).
  { apply Forall_forall. intros col Hcol.
    apply list_elem_of_lookup in Hcol as [j Hj].
    exact (proj1 (transpose_lookup _ _ _ Hj)). }
  assert (HneT : Useful.transpose m <> [])
    by (intros Hnil; rewrite Hnil in HlenT; simpl in HlenT; lia).
  assert (HlenTT : length (Useful.transpose (Useful.transpose m)) = length m)
    by (rewrite transpose_length; apply shortest_rectangular; assumption).
  apply list_eq. intros i.
  destruct (m !! i) as [row|] eqn:Hmi.
  - assert (Hi : i < length m) by (apply lookup_lt_is_Some; eauto).
    destruct (lookup_lt_is_Some_2 (Useful.transpose (Useful.transpose m)) i)
      as [row' Hrow']; [lia|].
    rewrite Hrow'. f_equal.
    destruct (transpose_lookup _ _ _ Hrow') as (Hlen' & Hitems').
    assert (Hlen : length row = n).
    { rewrite Forall_forall in Hrows. apply Hrows.
      apply list_elem_of_lookup. eauto. }
    apply list_eq. intros j.
    destruct (Useful.transpose m !! j) as [col|] eqn:HTj.
    + destruct (Hitems' j col HTj) as (x & Hcx & Hrx).
      destruct (transpose_lookup _ _ _ HTj) as (_ & Hitems).
      destruct (Hitems i row Hmi) as (x' & Hrx' & Hcx').
      rewrite Hrx, Hrx'. congruence.
    + apply lookup_ge_None in HTj.
      rewrite (proj2 (lookup_ge_None row' j)) by lia.
      rewrite (proj2 (lookup_ge_None row j)) by lia. reflexivity.
  - apply lookup_ge_None in Hmi. apply lookup_ge_None. lia.
Qed.

End TransposeMore.

Section ZipWithMore.
Context {cls V : Type} (none : V).

Local Open Scope nat_scope.

Lemma pad_pairs_length (xs ys : list V) :
  length (pad_pairs none xs ys) = Nat.max (length xs) (length ys).
Proof.
  revert ys. induction xs as [|x xs IH]; intros ys; simpl.
  - apply length_map.
  - destruct ys as [|y ys]; simpl; rewrite IH; simpl; lia.
Qed.

(** X21: [zipWith] calls [f] once for every position of the longer
    sequence: a counter that every call of [f] puts up by one ends
    [max(len(xs), len(ys))] higher. *)
Theorem zipWith_call_count (f : V -> V -> V) (xs ys : list V) (calls : nat) :
  Useful.zipWith (cls := cls) none
    (total2 (fun x y n => (f x y, Datatypes.S n))) xs ys calls =
    (Ret none, calls + Nat.max (length xs) (length ys)).
Proof.
  unfold Useful.zipWith, map2.
  destruct (for_each_total (cls := cls) (fun x y n => (f x y, Datatypes.S n))
              (pad_pairs none xs ys) calls) as [vs Hvs].
  rewrite (bind_returned _ _ _ _ _ Hvs). unfold ret. f_equal.
  rewrite <- pad_pairs_length. clear Hvs.
  generalize (pad_pairs none xs ys). intros l.
  revert calls. induction l as [|p l IH]; intros calls; simpl.
  - lia.
  - rewrite IH. lia.
Qed.

End ZipWithMore.

(** ** The further properties on examples *)

Section MoreExamples.
Import Py27 Doctest.

Lemma safe_reverse_spec_witness :
  let h : gmap loc (list Z) := {[ 1%positive := [1; 2; 3] ]} in
  let xs : loc := 1%positive in
  h !! xs = Some [1; 2; 3] /\
  exists new_xs h',
    Useful.safe_reverse (cls := builtin) xs h = (Ret new_xs, h') /\
    h !! new_xs = None /\
    h' = <[new_xs := [3; 2; 1]]> h /\
    h' !! xs = Some [1; 2; 3].
Proof.
  intros h xs. split; [reflexivity|].
  exact (safe_reverse_spec (cls := builtin) h xs [1; 2; 3] eq_refl).
Defined.

Lemma safe_reverse_twice_witness :
  let h : gmap loc (list Z) := {[ 1%positive := [1; 2; 3] ]} in
  let xs : loc := 1%positive in
  h !! xs = Some [1; 2; 3] /\
  exists ys zs h1 h2,
    Useful.safe_reverse (cls := builtin) xs h = (Ret ys, h1) /\
    Useful.safe_reverse (cls := builtin) ys h1 = (Ret zs, h2) /\
    h2 !! zs = Some [1; 2; 3] /\
    h2 !! ys = Some [3; 2; 1] /\
    h2 !! xs = Some [1; 2; 3] /\
    zs <> ys /\ zs <> xs /\ ys <> xs.
Proof.
  intros h xs. split; [reflexivity|].
  exact (safe_reverse_twice (cls := builtin) h xs [1; 2; 3] eq_refl).
Defined.

(** A shuffle that turns the list round and counts its calls. *)
Lemma safe_shuffle_spec_witness :
  let shuffle_items (l : list Z) (r : nat) := (rev l, Datatypes.S r) in
  let h : gmap loc (list Z) := {[ 1%positive := [1; 2; 3] ]} in
  let xs : loc := 1%positive in
  (forall l r0, fst (shuffle_items l r0) ≡ₚ l) /\
  h !! xs = Some [1; 2; 3] /\
  exists new_xs new_items h' r',
    Useful.safe_shuffle (cls := builtin) shuffle_items xs (h, O) = (Ret new_xs, (h', r')) /\
    h !! new_xs = None /\
    h' = <[new_xs := new_items]> h /\
    h' !! xs = Some [1; 2; 3] /\
    new_items ≡ₚ [1; 2; 3] /\
    (new_items, r') = shuffle_items [1; 2; 3] O.
Proof.
  intros shuffle_items h xs.
  assert (Hperm : forall l r0, fst (shuffle_items l r0) ≡ₚ l)
    by (intros l r0; simpl; symmetry; apply Permutation_rev).
  split; [exact Hperm|]. split; [reflexivity|].
  exact (safe_shuffle_spec (cls := builtin) shuffle_items h xs [1; 2; 3] O Hperm eq_refl).
Defined.

Lemma py_eq_none_values (x y : pyval) :
  py_eq x VNone = true -> py_eq y VNone = true -> py_eq y x = true.
Proof. destruct x, y; simpl; intros Hx Hy; (discriminate || reflexivity). Qed.

Lemma all_nones_all_same_witness :
  Useful.all_nones (cls := builtin) VNone py_eq [VNone; VNone; VNone] = Ret true /\
  Useful.all_same (cls := builtin) VNone py_eq [VNone; VNone; VNone] = Ret true.
Proof.
  split; [reflexivity|].
  exact (all_nones_all_same (cls := builtin) VNone py_eq [VNone; VNone; VNone]
           py_eq_none_values eq_refl).
Defined.

Lemma all_same_replicate_witness :
  py_eq (VStr "a") (VStr "a") = true /\
  Useful.all_same (cls := builtin) VNone py_eq (Useful.replicate 5 (VStr "a")) = Ret true.
Proof.
  split; [reflexivity|].
  exact (all_same_replicate (cls := builtin) VNone py_eq 5 (VStr "a") eq_refl).
Defined.

Lemma update_list_negative_index_witness :
  let h : gmap loc (list Z) := {[ 1%positive := [1; 2; 3] ]} in
  let xs : loc := 1%positive in
  h !! xs = Some [1; 2; 3] /\
  0 <= 2 < 3 /\
  Useful.update_list (cls := builtin) xs (2 - 3) 42 h =
  Useful.update_list (cls := builtin) xs 2 42 h.
Proof.
  intros h xs.
  assert (Hi : 0 <= 2 < 3) by lia.
  split; [reflexivity|]. split; [exact Hi|].
  exact (update_list_negative_index (cls := builtin) h xs [1; 2; 3] 2 42 eq_refl Hi).
Defined.

Lemma update_list_twice_witness :
  let h : gmap loc (list Z) := {[ 1%positive := [1; 2; 3] ]} in
  let xs : loc := 1%positive in
  h !! xs = Some [1; 2; 3] /\
  - 3 <= -1 < 3 /\
  exists ys zs h1 h2,
    Useful.update_list (cls := builtin) xs (-1) 42 h = (Ret ys, h1) /\
    Useful.update_list (cls := builtin) ys (-1) 7 h1 = (Ret zs, h2) /\
    h2 !! zs = Some [1; 2; 7] /\
    h2 !! ys = Some [1; 2; 42] /\
    h2 !! xs = Some [1; 2; 3].
Proof.
  intros h xs.
  assert (Hi : - 3 <= -1 < 3) by lia.
  split; [reflexivity|]. split; [exact Hi|].
  exact (update_list_twice (cls := builtin) h xs [1; 2; 3] (-1) 42 7 eq_refl Hi).
Defined.

Local Open Scope string_scope.

Lemma union_with_comm_witness :
  let m1 : gmap string Z := <["a" := 3]> {["b" := 2]} in
  let m2 : gmap string Z := <["a" := 42]> {["c" := 4]} in
  let d1 : loc := 1%positive in
  let d2 : loc := 2%positive in
  let h : gmap loc (gmap string Z) := <[d2 := m2]> {[ d1 := m1 ]} in
  (forall a b, a + b = b + a) /\
  h !! d1 = Some m1 /\
  h !! d2 = Some m2 /\
  Useful.union_with (cls := builtin) 0 Z.add d1 d2 h =
  Useful.union_with (cls := builtin) 0 Z.add d2 d1 h.
Proof.
  intros m1 m2 d1 d2 h.
  split; [exact Z.add_comm|]. split; [reflexivity|]. split; [reflexivity|].
  exact (union_with_comm (cls := builtin) 0 Z.add h d1 d2 m1 m2
           Z.add_comm eq_refl eq_refl).
Defined.

Lemma union_with_empty_witness :
  let m1 : gmap string Z := <["a" := 3]> {["b" := 2]} in
  let d1 : loc := 1%positive in
  let d2 : loc := 2%positive in
  let h : gmap loc (gmap string Z) := <[d2 := ∅]> {[ d1 := m1 ]} in
  (forall v, v + 0 = v) /\
  h !! d1 = Some m1 /\
  h !! d2 = Some ∅ /\
  exists new,
    Useful.union_with (cls := builtin) 0 Z.add d1 d2 h = (Ret new, <[new := m1]> h) /\
    h !! new = None.
Proof.
  intros m1 d1 d2 h.
  split; [exact Z.add_0_r|]. split; [reflexivity|]. split; [reflexivity|].
  exact (union_with_empty (cls := builtin) 0 Z.add h d1 d2 m1
           Z.add_0_r eq_refl eq_refl).
Defined.

Lemma transpose_involutive_witness :
  let m := [[1; 2; 3]; [4; 5; 6]] in
  (0 < 3)%nat /\
  Forall (fun row => length row = 3%nat) m /\
  Useful.transpose (Useful.transpose m) = m.
Proof.
  intros m.
  assert (Hn : (0 < 3)%nat) by lia.
  assert (Hrows : Forall (fun row => length row = 3%nat) m)
    by (repeat constructor).
  split; [exact Hn|]. split; [exact Hrows|].
  exact (transpose_involutive m 3%nat Hn Hrows).
Defined.

(** Without the condition the table does not come back: a row that is
    shorter cuts the columns, and a table of empty rows has none. *)
Example transpose_twice_ragged :
  Useful.transpose (Useful.transpose [[1; 2; 3]; [4; 5]]) = [[1; 2]; [4; 5]] /\
  Useful.transpose (Useful.transpose [[]; @nil Z]) = [].
Proof. split; reflexivity. Qed.

End MoreExamples.
